(** * simple-task-queue: a task queue over one relational table

    Shallow embedding of [src/types.ts] (Task, TaskRegistry),
    [src/taskQueue.ts] (TaskQueue.addTask, TaskQueue.getNextBatchToProcess),
    [src/runner.ts] (TaskRunner.processTask) and [src/tasks.ts]
    (HealthCheckTask), followed by the properties of the specification that
    were checked against them.

    Conventions.  JavaScript numbers that the code uses as integers
    (millisecond timestamps, priorities, retry counters, the batch size) are
    [Z].  The wall clock ([Date.now()], SQL [NOW()]) is an explicit argument
    [now] of every operation that reads it.  The table ["Task"] is the list
    of its rows in storage order. *)

From stdpp Require Import base option list sorting strings gmap.
From Stdlib Require Import ZArith Lia.

Local Open Scope Z_scope.
Local Set Warnings "-register-all".

(** ** JSON values *)

(** Values held by own properties of a task object.  [JUndefined] only occurs
    in live objects; [JSON.stringify] drops it. *)
Inductive Js : Type :=
  | JUndefined
  | JNull
  | JBool (b : bool)
  | JNum (n : Z)
  | JStr (s : string)
  | JArr (items : list Js)
  | JObj (props : list (string * Js)).

(** [JSON.parse(JSON.stringify(v))] for a value in property position:
    [None] when the property is omitted. *)
Fixpoint jsonValue (v : Js) : option Js :=
  match v with
  | JUndefined => None
  | JArr items =>
      Some (JArr (map (fun x => default JNull (jsonValue x)) items))
  | JObj props =>
      Some (JObj ((fix go (l : list (string * Js)) : list (string * Js) :=
                     match l with
                     | [] => []
                     | (k, x) :: l' =>
                         match jsonValue x with
                         | Some y => (k, y) :: go l'
                         | None => go l'
                         end
                     end) props))
  | _ => Some v
  end.

Fixpoint jsonProps (l : list (string * Js)) : list (string * Js) :=
  match l with
  | [] => []
  | (k, x) :: l' =>
      match jsonValue x with
      | Some y => (k, y) :: jsonProps l'
      | None => jsonProps l'
      end
  end.

(** [obj[k] = v] on an insertion-ordered property list. *)
Fixpoint setProp (k : string) (v : Js) (l : list (string * Js))
  : list (string * Js) :=
  match l with
  | [] => [(k, v)]
  | (k', v') :: l' =>
      if String.eqb k k' then (k, v) :: l' else (k', v') :: setProp k v l'
  end.

(** ** types.ts *)

Inductive TASK_STATUS : Type := SUCCESS | FAILURE | IGNORED.

(** The fields of the abstract class [Task]; [extra] holds the own
    properties a subclass adds (their names differ from the four above). *)
Record Task : Type := mkTask {
  tries : Z;
  type : string;
  createdAt : Z;
  priority : Z;
  extra : list (string * Js)
}.

(** [protected constructor(type, priority = 100)], run at time [now]. *)
Definition Task_new (now : Z) (ty : string) (prio : option Z) : Task :=
  {| tries := 0; type := ty; createdAt := now;
     priority := default 100 prio; extra := [] |}.

(** [Partial<T>]: what a stored payload or a [build] argument carries. *)
Record Payload : Type := mkPayload {
  p_tries : option Z;
  p_type : option string;
  p_createdAt : option Z;
  p_priority : option Z;
  p_extra : list (string * Js)
}.

Definition emptyPayload : Payload :=
  {| p_tries := None; p_type := None; p_createdAt := None;
     p_priority := None; p_extra := [] |}.

(** [Object.assign(task, data)] *)
Definition Object_assign (task : Task) (data : Payload) : Task :=
  {| tries := default (tries task) (p_tries data);
     type := default (type task) (p_type data);
     createdAt := default (createdAt task) (p_createdAt data);
     priority := default (priority task) (p_priority data);
     extra := foldl (fun acc kv => setProp kv.1 kv.2 acc)
                    (extra task) (p_extra data) |}.

(** [JSON.parse(JSON.stringify(task))] *)
Definition serialize (task : Task) : Payload :=
  {| p_tries := Some (tries task);
     p_type := Some (type task);
     p_createdAt := Some (createdAt task);
     p_priority := Some (priority task);
     p_extra := jsonProps (extra task) |}.

(** What [await task.run()] does: it settles with a status or rejects. *)
Inductive RunOutcome : Type :=
  | Returns (s : TASK_STATUS)
  | Throws.

(** A concrete subclass of [Task]: its zero-argument constructor (which reads
    the clock), its [run] (which may also update the instance) and its
    [nextTry]. *)
Record TaskClass : Type := mkTaskClass {
  ctor : Z → Task;
  run : Task → RunOutcome * Task;
  nextTry : Task → Z
}.

(** [Task.prototype.nextTry] *)
Definition Task_nextTry (_ : Task) : Z := -1.

Record TaskRegistry : Type := mkRegistry {
  types : gmap string TaskClass;
  frequencies : gmap string Z;
  uniqueTasks : gset string
}.

(** [new TaskRegistry()] *)
Definition emptyRegistry : TaskRegistry :=
  {| types := ∅; frequencies := ∅; uniqueTasks := ∅ |}.

Record RegisterOptions : Type := mkOptions { unique : option bool }.

(** [if (frequency)]: absent and [0] are both falsy. *)
Definition truthyFrequency (frequency : option Z) : option Z :=
  match frequency with
  | Some f => if f =? 0 then None else Some f
  | None => None
  end.

(** [options?.unique] used as a condition. *)
Definition optionsUnique (options : option RegisterOptions) : bool :=
  match options with
  | Some o => default false (unique o)
  | None => false
  end.

Definition register (typeStr : string) (cls : TaskClass)
    (frequency : option Z) (options : option RegisterOptions)
    (reg : TaskRegistry) : TaskRegistry :=
  {| types := <[typeStr := cls]> (types reg);
     frequencies :=
       match truthyFrequency frequency with
       | Some f => <[typeStr := f]> (frequencies reg)
       | None => frequencies reg
       end;
     uniqueTasks :=
       if optionsUnique options then {[typeStr]} ∪ uniqueTasks reg
       else uniqueTasks reg |}.

(** A live task object: its own fields and the class it was made by, through
    which [task.run()] and [task.nextTry()] dispatch. *)
Record Instance : Type := mkInstance {
  proto : TaskClass;
  this : Task
}.

Definition build (reg : TaskRegistry) (now : Z) (typeStr : string)
    (data : Payload) : option Instance :=
  match types reg !! typeStr with
  | None => None
  | Some cls =>
      Some {| proto := cls; this := Object_assign (ctor cls now) data |}
  end.

(** [new Map(this.frequencies)]: a copy, so the caller holds a snapshot. *)
Definition getTimedTasks (reg : TaskRegistry) : gmap string Z :=
  frequencies reg.

Definition isUnique (reg : TaskRegistry) (ty : string) : bool :=
  bool_decide (ty ∈ uniqueTasks reg).

(** ** schema.prisma and taskQueue.ts *)

(** A row of the table ["Task"].  [id] is the [uuid()] primary key, drawn
    here from a counter kept with the table. *)
Module TaskRow.
Record t : Type := mk {
  id : positive;
  type : string;
  priority : Z;
  payload : Payload;
  maturityAt : Z;
  createdAt : Z;
  updatedAt : Z
}.
End TaskRow.

Abbreviation TaskRecord := TaskRow.t.

Record Store : Type := mkStore {
  rows : list TaskRecord;
  nextId : positive
}.

Definition emptyStore : Store := {| rows := []; nextId := 1%positive |}.

(** [findFirst({ where: { payload: { path: ["type"], equals: ty } } })] *)
Definition findFirst_payloadType (ty : string) (tbl : list TaskRecord)
  : option TaskRecord :=
  snd <$> list_find (λ r, p_type (TaskRow.payload r) = Some ty) tbl.

(** [prisma.task.create]: [id], [createdAt] and [updatedAt] take their
    schema defaults. *)
Definition create (now : Z) (ty : string) (prio maturity : Z)
    (payload : Payload) (st : Store) : TaskRecord * Store :=
  let r := {| TaskRow.id := nextId st; TaskRow.type := ty; TaskRow.priority := prio;
              TaskRow.payload := payload; TaskRow.maturityAt := maturity;
              TaskRow.createdAt := now; TaskRow.updatedAt := now |} in
  (r, {| rows := rows st ++ [r]; nextId := Pos.succ (nextId st) |}).

(** [addTask(task, delayMs = 0)] at time [now]: the created record, or [None]
    for [null], and the table afterwards. *)
Definition addTask (reg : TaskRegistry) (now : Z) (task : Task)
    (delayMs : Z) (st : Store) : option TaskRecord * Store :=
  let maturityAt := now + delayMs in
  let existingTask :=
    if isUnique reg (type task)
    then findFirst_payloadType (type task) (rows st)
    else None in
  match existingTask with
  | Some _ => (None, st)
  | None =>
      let '(r, st') :=
        create now (type task) (priority task) maturityAt (serialize task) st in
      (Some r, st')
  end.

(** [WHERE "maturityAt" < NOW()] *)
Definition eligible (now : Z) (r : TaskRecord) : bool :=
  TaskRow.maturityAt r <? now.

(** [ORDER BY priority DESC, "createdAt" ASC]: [r1] may come before [r2]. *)
Definition claimOrder (r1 r2 : TaskRecord) : Prop :=
  TaskRow.priority r2 < TaskRow.priority r1
  ∨ (TaskRow.priority r1 = TaskRow.priority r2 ∧ TaskRow.createdAt r1 ≤ TaskRow.createdAt r2).

Global Instance claimOrder_dec r1 r2 : Decision (claimOrder r1 r2).
Proof. unfold claimOrder. apply _. Defined.

(** The matured rows in the order of the [ORDER BY] clause. *)
Definition eligibleSorted (now : Z) (tbl : list TaskRecord)
  : list TaskRecord :=
  merge_sort claimOrder (filter (λ r, eligible now r = true) tbl).

(** The subquery: the rows whose ids the [IN] list holds. *)
Definition selectRows (now : Z) (batchSize : nat) (tbl : list TaskRecord)
  : list TaskRecord :=
  take batchSize (eligibleSorted now tbl).

Definition selectIds (now : Z) (batchSize : nat) (tbl : list TaskRecord)
  : list positive :=
  TaskRow.id <$> selectRows now batchSize tbl.

Inductive Result (A : Type) : Type :=
  | Ok (a : A)
  | DbError.
Arguments Ok {A} a.
Arguments DbError {A}.

(** [getNextBatchToProcess(batchSize = 10)] at time [now].  The statement is
    [DELETE FROM "Task" WHERE id IN (subquery) RETURNING *].  [ORDER BY] and
    [LIMIT] belong to the subquery and decide which ids it yields; the
    [DELETE] has no order of its own: it goes through the table, removes the
    rows whose id is in the list and hands them back as it meets them.  A
    negative [LIMIT] is rejected by the database, the transaction fails and
    the table is left as it was. *)
Definition getNextBatchToProcess (now : Z) (batchSize : Z) (st : Store)
  : Result (list TaskRecord * Store) :=
  if batchSize <? 0 then DbError
  else
    let ids := selectIds now (Z.to_nat batchSize) (rows st) in
    Ok (filter (λ r, TaskRow.id r ∈ ids) (rows st),
        {| rows := filter (λ r, TaskRow.id r ∉ ids) (rows st);
           nextId := nextId st |}).

Abbreviation claimBatch := getNextBatchToProcess.

(** The primary key of the table: ids are pairwise different and all below
    the counter the next id is drawn from. *)
Definition primaryKey (st : Store) : Prop :=
  NoDup (TaskRow.id <$> rows st)
  ∧ Forall (λ r, (TaskRow.id r < nextId st)%positive) (rows st).

(** Every row written by [addTask] carries its type in its payload too, which
    is where the duplicate check of [addTask] looks. *)
Definition typedPayloads (tbl : list TaskRecord) : Prop :=
  Forall (λ r, p_type (TaskRow.payload r) = Some (TaskRow.type r)) tbl.

(** ** tasks.ts *)

Definition SendEmailTask : TaskClass :=
  {| ctor := λ now, Task_new now "SendEmail" (Some 100);
     run := λ t, (Returns SUCCESS, t);
     nextTry := Task_nextTry |}.

Definition ProcessDataTask : TaskClass :=
  {| ctor := λ now, Task_new now "ProcessData" (Some 100);
     run := λ t, (Returns SUCCESS, t);
     nextTry := Task_nextTry |}.

Definition DailyReportTask : TaskClass :=
  {| ctor := λ now, Task_new now "DailyReport" (Some 100);
     run := λ t, (Returns SUCCESS, t);
     nextTry := Task_nextTry |}.

(** [return this.tries < 3 ? 60 * 1000 : -1] *)
Definition HealthCheckTask_nextTry (t : Task) : Z :=
  if tries t <? 3 then 60 * 1000 else -1.

(** [isHealthy] is the outcome of [Math.random() > 0.1] in this execution. *)
Definition HealthCheckTask (isHealthy : bool) : TaskClass :=
  {| ctor := λ now, Task_new now "HealthCheck" (Some 200);
     run := λ t, (Returns (if isHealthy then SUCCESS else FAILURE), t);
     nextTry := HealthCheckTask_nextTry |}.

(** The registry once the four [@RegisterTask] decorators have run. *)
Definition taskRegistry (isHealthy : bool) : TaskRegistry :=
  register "HealthCheck" (HealthCheckTask isHealthy) (Some (5 * 1000))
    (Some {| unique := Some true |})
  (register "DailyReport" DailyReportTask (Some (24 * 60 * 60 * 1000))
    (Some {| unique := Some true |})
  (register "ProcessData" ProcessDataTask None None
  (register "SendEmail" SendEmailTask None None emptyRegistry))).

(** ** runner.ts *)

(** [processTask(taskData)]: how the returned promise settles, and the table
    afterwards.  [taskData.payload.type] may be [undefined], for which
    [types.get] finds nothing. *)
Definition processTask (reg : TaskRegistry) (now : Z) (taskData : TaskRecord)
    (st : Store) : RunOutcome * Store :=
  let data := TaskRow.payload taskData in
  match (ty ← p_type data; build reg now ty data) with
  | None => (Returns FAILURE, st)
  | Some task =>
      match run (proto task) (this task) with
      | (Returns result, self) =>
          match result with
          | FAILURE =>
              let nextTryDelay := nextTry (proto task) self in
              if 0 <=? nextTryDelay then
                let self' := {| tries := tries self + 1; type := type self;
                                createdAt := createdAt self;
                                priority := priority self;
                                extra := extra self |} in
                (Returns result, (addTask reg now self' nextTryDelay st).2)
              else (Returns result, st)
          | _ => (Returns result, st)
          end
      | (Throws, _) => (Returns FAILURE, st)
      end
  end.

(** The table effects of [Promise.all(tasks.map(processTask))], the tasks
    taken in batch order. *)
Definition processAll (reg : TaskRegistry) (now : Z)
    (tasks : list TaskRecord) (st : Store) : Store :=
  foldl (λ acc taskData, (processTask reg now taskData acc).2) st tasks.

(** One turn of the loop of [start()] at time [now]: claim five, process
    them.  A failed claim is logged and leaves the table alone. *)
Definition runnerTurn (reg : TaskRegistry) (now : Z) (st : Store) : Store :=
  match getNextBatchToProcess now 5 st with
  | Ok (tasks, st') => processAll reg now tasks st'
  | DbError => st
  end.

(** The loop of [start()] taking a turn at each of the given times. *)
Definition runnerTurns (reg : TaskRegistry) (times : list Z) (st : Store)
  : Store :=
  foldl (λ acc now, runnerTurn reg now acc) st times.

(** A pending row of type [ty] whose payload carries [tries = k] and which
    matures at [maturity]. *)
Definition retryRow (ty : string) (k maturity : Z) (r : TaskRecord) : Prop :=
  p_type (TaskRow.payload r) = Some ty
  ∧ p_tries (TaskRow.payload r) = Some k
  ∧ TaskRow.maturityAt r = maturity.

(** ** Two [getNextBatchToProcess] transactions on one table

    [FOR UPDATE] locks the rows the subquery selects until the transaction
    ends; [SKIP LOCKED] makes the subquery pass over rows another open
    transaction has locked.  A call is two steps: the locking subquery, then
    the delete with commit, which publishes the removal and frees the
    locks. *)

Inductive Caller : Type := CallerA | CallerB.

Definition other (c : Caller) : Caller :=
  match c with CallerA => CallerB | CallerB => CallerA end.

Inductive TxPhase : Type :=
  | TxIdle
  | TxLocked (ids : list positive)
  | TxDone (returned : list TaskRecord)
  | TxFailed.

Record Call : Type := mkCall { callNow : Z; callBatchSize : Z }.

Record Config : Type := mkConfig {
  table : list TaskRecord;
  phaseA : TxPhase;
  phaseB : TxPhase
}.

Definition phaseOf (c : Caller) (cfg : Config) : TxPhase :=
  match c with CallerA => phaseA cfg | CallerB => phaseB cfg end.

Definition setPhase (c : Caller) (p : TxPhase) (tbl : list TaskRecord)
    (cfg : Config) : Config :=
  match c with
  | CallerA => {| table := tbl; phaseA := p; phaseB := phaseB cfg |}
  | CallerB => {| table := tbl; phaseA := phaseA cfg; phaseB := p |}
  end.

(** Row locks an open transaction holds. *)
Definition lockedBy (p : TxPhase) : list positive :=
  match p with TxLocked ids => ids | _ => [] end.

(** The subquery when other transactions hold the locks [locked]. *)
Definition selectRowsSkipLocked (now : Z) (batchSize : nat)
    (locked : list positive) (tbl : list TaskRecord) : list TaskRecord :=
  take batchSize
    (merge_sort claimOrder
       (filter (λ r, eligible now r = true ∧ TaskRow.id r ∉ locked) tbl)).

(** The next step of caller [c], if it has one left. *)
Definition txStep (calls : Caller → Call) (c : Caller) (cfg : Config)
  : option Config :=
  match phaseOf c cfg with
  | TxIdle =>
      if callBatchSize (calls c) <? 0 then
        Some (setPhase c TxFailed (table cfg) cfg)
      else
        let sel := selectRowsSkipLocked (callNow (calls c))
                     (Z.to_nat (callBatchSize (calls c)))
                     (lockedBy (phaseOf (other c) cfg)) (table cfg) in
        Some (setPhase c (TxLocked (TaskRow.id <$> sel)) (table cfg) cfg)
  | TxLocked ids =>
      Some (setPhase c (TxDone (filter (λ r, TaskRow.id r ∈ ids) (table cfg)))
              (filter (λ r, TaskRow.id r ∉ ids) (table cfg)) cfg)
  | TxDone _ | TxFailed => None
  end.


Definition initial (tbl : list TaskRecord) : Config :=
  {| table := tbl; phaseA := TxIdle; phaseB := TxIdle |}.


(** Ids a transaction holds locked or has removed. *)
Definition held (p : TxPhase) : list positive :=
  match p with
  | TxLocked ids => ids
  | TxDone returned => TaskRow.id <$> returned
  | _ => []
  end.

(** Runs the callers of [schedule] one step each, in order. *)
Fixpoint runSchedule (calls : Caller → Call) (schedule : list Caller)
    (cfg : Config) : Config :=
  match schedule with
  | [] => cfg
  | c :: rest =>
      match txStep calls c cfg with
      | Some cfg' => runSchedule calls rest cfg'
      | None => runSchedule calls rest cfg
      end
  end.

Global Instance Caller_eq_dec : EqDecision Caller.
Proof. solve_decision. Defined.





Definition sameCall (call : Call) : Caller → Call := λ _, call.

(** ** Example data *)

Definition exampleRow (i : positive) (ty : string) (prio maturity created : Z)
  : TaskRecord :=
  {| TaskRow.id := i; TaskRow.type := ty; TaskRow.priority := prio;
     TaskRow.payload := serialize {| tries := 0; type := ty; createdAt := created;
                                 priority := prio; extra := [] |};
     TaskRow.maturityAt := maturity; TaskRow.createdAt := created;
     TaskRow.updatedAt := created |}.

Definition urgentRow : TaskRecord :=
  exampleRow 4 "HealthCheck" 200 3000 3000.

(** Priorities 10, 50, 50, 200 in storage order; the second 50 is older. *)
Definition priorityRows : list TaskRecord :=
  [ exampleRow 1 "SendEmail" 10 1000 1000;
    exampleRow 2 "ProcessData" 50 4000 4000;
    exampleRow 3 "ProcessData" 50 2000 2000;
    urgentRow ].

Definition priorityStore : Store := {| rows := priorityRows; nextId := 5 |}.


(** A row whose maturityAt is the time of the claim. *)
Definition maturingNowRow : TaskRecord :=
  exampleRow 1 "SendEmail" 100 5000 1000.

Definition maturingNowStore : Store :=
  {| rows := [maturingNowRow]; nextId := 2 |}.

(** Both callers ask for two rows at time 5000. *)
Definition exampleCalls : Caller → Call :=
  sameCall {| callNow := 5000; callBatchSize := 2 |}.

Definition exampleSchedule : list Caller :=
  [CallerA; CallerB; CallerA; CallerB].

(** One pending daily report. *)
Definition reportStore : Store :=
  (addTask (taskRegistry true) 1000 (ctor DailyReportTask 1000) 0
     emptyStore).2.

(** A claimed row of a type nobody registered. *)
Definition unknownRow : TaskRecord := exampleRow 7 "Unknown" 100 1000 1000.

(** ["DailyReport"] registered with a frequency and as unique, then again
    with neither. *)
Definition reregistered : TaskRegistry :=
  register "DailyReport" SendEmailTask None None
    (register "DailyReport" DailyReportTask (Some (24 * 60 * 60 * 1000))
       (Some {| unique := Some true |}) emptyRegistry).

(** A health check that always fails, queued at time 1000. *)
Definition failingStore : Store :=
  (addTask (taskRegistry false) 1000 (ctor (HealthCheckTask false) 1000) 0
     emptyStore).2.

(** A task with the retry policy of [HealthCheckTask] whose [run] settles as
    given. *)
Definition FlakyTask (outcome : RunOutcome) : TaskClass :=
  {| ctor := λ now, Task_new now "Flaky" None;
     run := λ t, (outcome, t);
     nextTry := HealthCheckTask_nextTry |}.

Definition flakyRegistry (outcome : RunOutcome) : TaskRegistry :=
  register "Flaky" (FlakyTask outcome) None None emptyRegistry.

(** The row of a fresh [FlakyTask], as a runner holds it after the claim, and
    the table the claim left. *)
Definition flakyRow : TaskRecord := exampleRow 1 "Flaky" 100 1000 1000.

Definition claimedStore : Store := {| rows := []; nextId := 2 |}.

(** ** taskQueue.ts, the rest *)

(** The first [await] of [addTask]: the row that makes the insert a
    duplicate, if the type is unique and one is pending. *)
Definition addTask_lookup (reg : TaskRegistry) (task : Task) (st : Store)
  : option TaskRecord :=
  if isUnique reg (type task)
  then findFirst_payloadType (type task) (rows st)
  else None.

(** The second [await] of [addTask]: [prisma.task.create]. *)
Definition addTask_insert (now : Z) (task : Task) (delayMs : Z) (st : Store)
  : TaskRecord * Store :=
  create now (type task) (priority task) (now + delayMs) (serialize task) st.

(** Two calls of [addTask] in flight at once, in the interleaving where both
    lookups are answered before either insert runs.  Nothing ties the lookup
    of a call to its insert: there is no transaction around them. *)
Definition addTask_racing (reg : TaskRegistry) (nowA nowB : Z)
    (taskA taskB : Task) (delayA delayB : Z) (st : Store)
  : option TaskRecord * option TaskRecord * Store :=
  let foundA := addTask_lookup reg taskA st in
  let foundB := addTask_lookup reg taskB st in
  let '(resultA, st1) :=
    match foundA with
    | Some _ => (None, st)
    | None => let '(r, s) := addTask_insert nowA taskA delayA st in (Some r, s)
    end in
  let '(resultB, st2) :=
    match foundB with
    | Some _ => (None, st1)
    | None => let '(r, s) := addTask_insert nowB taskB delayB st1 in (Some r, s)
    end in
  (resultA, resultB, st2).

(** [addBatchTasks(tasks, spacingMs = 0)], from index [i] on.  [clock i] is
    what [Date.now()] gives inside the [i]-th [addTask]. *)
Fixpoint addBatchTasks_from (reg : TaskRegistry) (clock : nat → Z)
    (spacingMs : Z) (i : nat) (tasks : list Task) (st : Store)
  : list TaskRecord * Store :=
  match tasks with
  | [] => ([], st)
  | task :: rest =>
      let delay := Z.of_nat i * spacingMs in
      let '(result, st1) := addTask reg (clock i) task delay st in
      let '(results, st2) :=
        addBatchTasks_from reg clock spacingMs (S i) rest st1 in
      (match result with
       | Some r => r :: results
       | None => results
       end, st2)
  end.

Definition addBatchTasks (reg : TaskRegistry) (clock : nat → Z)
    (tasks : list Task) (spacingMs : Z) (st : Store)
  : list TaskRecord * Store :=
  addBatchTasks_from reg clock spacingMs 0 tasks st.

(** Pending rows whose payload names the type [ty]. *)
Definition pendingOf (ty : string) (tbl : list TaskRecord)
  : list TaskRecord :=
  filter (λ r, p_type (TaskRow.payload r) = Some ty) tbl.

(** At most one row is pending for each unique type. *)
Definition uniquePending (reg : TaskRegistry) (tbl : list TaskRecord) : Prop :=
  ∀ ty, isUnique reg ty = true → (length (pendingOf ty tbl) ≤ 1)%nat.

(** What the queue keeps true of its table. *)
Definition tableOk (reg : TaskRegistry) (st : Store) : Prop :=
  primaryKey st ∧ typedPayloads (rows st) ∧ uniquePending reg (rows st).

(** Two mails, to go out one second apart. *)
Definition mailBatch : list Task :=
  [ctor SendEmailTask 1000; ctor SendEmailTask 1000].

(** A pending health check and the claimed row of an earlier one that
    failed. *)
Definition healthRow : TaskRecord := exampleRow 9 "HealthCheck" 200 1000 1000.

(** Every task of the registry gives up on failure. *)
Definition neverRetries (reg : TaskRegistry) : Prop :=
  ∀ ty cls t, types reg !! ty = Some cls → nextTry cls t < 0.

(** The mail registry: [SendEmailTask] and [ProcessDataTask] only. *)
Definition mailRegistry : TaskRegistry :=
  register "ProcessData" ProcessDataTask None None
    (register "SendEmail" SendEmailTask None None emptyRegistry).

(** ** types.ts, the decorators *)

(** One use of [@RegisterTask(typeStr, frequency, options)] on a class. *)
Record Registration : Type := mkRegistration {
  regType : string;
  regClass : TaskClass;
  regFrequency : option Z;
  regOptions : option RegisterOptions
}.

(** [RegisterTask(typeStr, frequency, options)(type)] *)
Definition RegisterTask (r : Registration) (reg : TaskRegistry)
  : TaskRegistry :=
  register (regType r) (regClass r) (regFrequency r) (regOptions r) reg.

(** The decorators of a module, run in the order of its classes. *)
Definition registerAll (regs : list Registration) (reg : TaskRegistry)
  : TaskRegistry :=
  foldl (λ acc r, RegisterTask r acc) reg regs.

(** Every timed type and every unique type has a constructor, and no
    frequency is zero. *)
Definition registryOk (reg : TaskRegistry) : Prop :=
  (∀ ty f, getTimedTasks reg !! ty = Some f →
           f ≠ 0 ∧ is_Some (types reg !! ty))
  ∧ (∀ ty, isUnique reg ty = true → is_Some (types reg !! ty)).

(** ** scheduler.ts *)

(** A running [setInterval(scheduleNextRun, frequency)]: the closure holds
    the one task object [scheduleTask] built. *)
Record Timer : Type := mkTimer {
  timerTask : Task;
  timerEvery : Z
}.

Record TaskScheduler : Type := mkScheduler {
  isRunning : bool;
  intervals : list Timer
}.


(** The closure [scheduleNextRun] of [scheduleTask], run at time [now]. *)
Definition scheduleNextRun (reg : TaskRegistry) (sch : TaskScheduler)
    (now : Z) (task : Task) (st : Store) : Store :=
  if isRunning sch then (addTask reg now task 0 st).2 else st.



(** [stop()] *)
Definition schedulerStop (sch : TaskScheduler) : TaskScheduler :=
  {| isRunning := false; intervals := [] |}.

(** A timer firing at each of the given times. *)
Definition timerTicks (reg : TaskRegistry) (sch : TaskScheduler)
    (timer : Timer) (times : list Z) (st : Store) : Store :=
  foldl (λ acc now, scheduleNextRun reg sch now (timerTask timer) acc)
        st times.

(** ** Histories of the queue *)

(** What the processes sharing the table do to it, one call at a time. *)
Inductive QueueOp : Type :=
  | OpAddTask (now : Z) (task : Task) (delayMs : Z)
  | OpAddBatchTasks (clock : nat → Z) (tasks : list Task) (spacingMs : Z)
  | OpClaim (now : Z) (batchSize : Z)
  | OpRunnerTurn (now : Z)
  | OpSchedulerTick (now : Z) (task : Task).

Definition runOp (reg : TaskRegistry) (op : QueueOp) (st : Store) : Store :=
  match op with
  | OpAddTask now task delayMs => (addTask reg now task delayMs st).2
  | OpAddBatchTasks clock tasks spacingMs =>
      (addBatchTasks reg clock tasks spacingMs st).2
  | OpClaim now batchSize =>
      match getNextBatchToProcess now batchSize st with
      | Ok (_, st') => st'
      | DbError => st
      end
  | OpRunnerTurn now => runnerTurn reg now st
  | OpSchedulerTick now task =>
      scheduleNextRun reg {| isRunning := true; intervals := [] |} now task st
  end.

Definition runOps (reg : TaskRegistry) (ops : list QueueOp) (st : Store)
  : Store :=
  foldl (λ acc op, runOp reg op acc) st ops.


(** * Properties *)

(** ** The registry *)

Lemma isUnique_register typeStr cls frequency options reg ty :
  isUnique (register typeStr cls frequency options reg) ty
  = (optionsUnique options && bool_decide (ty = typeStr)) || isUnique reg ty.
Proof.
  unfold isUnique, register. simpl.
  destruct (optionsUnique options); simpl; [ | done ].
  destruct (decide (ty = typeStr)) as [-> | Hne].
  - rewrite bool_decide_eq_true_2
      by (apply elem_of_union; left; by apply elem_of_singleton).
    by rewrite (bool_decide_eq_true_2 (typeStr = typeStr)).
  - rewrite (bool_decide_eq_false_2 (ty = typeStr)) by done. simpl.
    apply bool_decide_ext. rewrite elem_of_union, elem_of_singleton. tauto.
Qed.

Lemma getTimedTasks_register typeStr cls frequency options reg :
  getTimedTasks (register typeStr cls frequency options reg) !! typeStr
  = match truthyFrequency frequency with
    | Some f => Some f
    | None => getTimedTasks reg !! typeStr
    end.
Proof.
  unfold getTimedTasks, register. simpl.
  destruct (truthyFrequency frequency); [ apply lookup_insert_eq | done ].
Qed.

(** C8 (amended).  After [register(typeName, c1, f1, o1)] and then
    [register(typeName, c2, f2, o2)], [build(typeName)] constructs through
    [c2]; [getTimedTasks] maps [typeName] to [f2] when [f2] is given and not
    zero, and otherwise to what it mapped it to before the second call;
    [isUnique(typeName)] holds when [o2], [o1] or an earlier registration set
    unique. *)
Theorem register_twice (reg : TaskRegistry) (typeName : string)
    (c1 c2 : TaskClass) (f1 f2 : option Z) (o1 o2 : option RegisterOptions)
    (now : Z) (data : Payload) :
  build (register typeName c2 f2 o2 (register typeName c1 f1 o1 reg))
    now typeName data
  = Some {| proto := c2; this := Object_assign (ctor c2 now) data |}
  ∧ getTimedTasks (register typeName c2 f2 o2 (register typeName c1 f1 o1 reg))
      !! typeName
    = match truthyFrequency f2 with
      | Some f => Some f
      | None =>
          getTimedTasks (register typeName c1 f1 o1 reg) !! typeName
      end
  ∧ getTimedTasks (register typeName c1 f1 o1 reg) !! typeName
    = match truthyFrequency f1 with
      | Some f => Some f
      | None => getTimedTasks reg !! typeName
      end
  ∧ isUnique (register typeName c2 f2 o2 (register typeName c1 f1 o1 reg))
      typeName
    = optionsUnique o2 || optionsUnique o1 || isUnique reg typeName.
Proof.
  split; [ | split; [ | split ] ].
  - unfold build, register. simpl. by rewrite lookup_insert_eq.
  - apply getTimedTasks_register.
  - apply getTimedTasks_register.
  - rewrite !isUnique_register, bool_decide_eq_true_2 by done.
    rewrite !andb_true_r. by rewrite orb_assoc.
Qed.

(** C8, the claim as written fails: the second registration gives neither a
    frequency nor the unique flag, yet the type stays timed and unique. *)
Lemma register_keeps_frequency_and_unique :
  getTimedTasks reregistered !! "DailyReport" = Some (24 * 60 * 60 * 1000)
  ∧ isUnique reregistered "DailyReport" = true.
Proof. by vm_compute. Qed.

(** ** Rebuilding a task from its row *)

Lemma jsonValue_object props :
  jsonValue (JObj props) = Some (JObj (jsonProps props)).
Proof. reflexivity. Qed.

(** C10.  For a task [t] whose type is registered, [build] applied to the
    type and the serialized task gives an instance of the registered class
    with the type, priority, tries and createdAt of [t]; the payload of the
    row that [addTask] writes for [t] is this serialization, and
    [processTask] rebuilds from it the same instance. *)
Theorem build_serialize_roundtrip (reg : TaskRegistry) (cls : TaskClass)
    (t : Task) (now : Z) :
  types reg !! type t = Some cls →
  ∃ inst,
    build reg now (type t) (serialize t) = Some inst
    ∧ proto inst = cls
    ∧ type (this inst) = type t
    ∧ priority (this inst) = priority t
    ∧ tries (this inst) = tries t
    ∧ createdAt (this inst) = createdAt t
    ∧ (∀ insertNow delayMs st r st',
         addTask reg insertNow t delayMs st = (Some r, st') →
         TaskRow.payload r = serialize t
         ∧ (ty ← p_type (TaskRow.payload r); build reg now ty (TaskRow.payload r))
           = Some inst).
Proof.
  intros Hreg. eexists. split; [ unfold build; by rewrite Hreg | ].
  repeat (split; [ done | ]).
  intros insertNow delayMs st r st' Hadd. unfold addTask in Hadd.
  destruct (if isUnique reg (type t) then _ else _); [ done | ].
  simpl in Hadd. injection Hadd as <- <-. simpl.
  split; [ done | ]. unfold build. by rewrite Hreg.
Qed.

Lemma build_serialize_roundtrip_witness :
  ∃ inst,
    build (taskRegistry false) 9000 "HealthCheck"
      (serialize {| tries := 2; type := "HealthCheck"; createdAt := 1000;
                    priority := 200; extra := [("note", JUndefined)] |})
    = Some inst
    ∧ tries (this inst) = 2
    ∧ createdAt (this inst) = 1000.
Proof.
  destruct (build_serialize_roundtrip (taskRegistry false)
              (HealthCheckTask false)
              {| tries := 2; type := "HealthCheck"; createdAt := 1000;
                 priority := 200; extra := [("note", JUndefined)] |} 9000)
    as (inst & Hbuild & _ & _ & _ & Htries & Hcreated & _).
  - by vm_compute.
  - exists inst. split; [ exact Hbuild | ]. split; [ exact Htries | exact Hcreated ].
Defined.

(** ** The claim order *)

Global Instance claimOrder_total : Total claimOrder.
Proof. intros r1 r2. unfold claimOrder. lia. Qed.

Global Instance claimOrder_trans : Transitive claimOrder.
Proof. intros r1 r2 r3. unfold claimOrder. lia. Qed.

Lemma eligible_spec now r : eligible now r = true ↔ TaskRow.maturityAt r < now.
Proof. unfold eligible. apply Z.ltb_lt. Qed.

Section claim.
Context (now : Z) (batchSize : nat) (tbl : list TaskRecord).

Lemma eligibleSorted_elem r :
  r ∈ eligibleSorted now tbl ↔ r ∈ tbl ∧ TaskRow.maturityAt r < now.
Proof.
  unfold eligibleSorted. rewrite merge_sort_Permutation, list_elem_of_filter.
  rewrite eligible_spec. tauto.
Qed.

Lemma selectRows_elem r :
  r ∈ selectRows now batchSize tbl → r ∈ tbl ∧ TaskRow.maturityAt r < now.
Proof.
  unfold selectRows. intros Hr. apply eligibleSorted_elem.
  eapply elem_of_sublist; [ apply Hr | apply sublist_take ].
Qed.


Lemma selectRows_length :
  length (selectRows now batchSize tbl)
  = Nat.min batchSize (length (filter (λ r, eligible now r = true) tbl)).
Proof.
  unfold selectRows, eligibleSorted. rewrite length_take.
  by rewrite merge_sort_Permutation.
Qed.

(** A row the subquery leaves behind does not come before one it takes. *)
Lemma selectRows_first r r' :
  r ∈ selectRows now batchSize tbl →
  r' ∈ tbl → TaskRow.maturityAt r' < now →
  r' ∉ selectRows now batchSize tbl →
  claimOrder r r'.
Proof.
  unfold selectRows. intros Hr Hr' Hm Hnot.
  set (sorted := eligibleSorted now tbl) in *.
  assert (Hs : r' ∈ take batchSize sorted ++ drop batchSize sorted).
  { rewrite take_drop. by apply eligibleSorted_elem. }
  apply elem_of_app in Hs as [Hs | Hs]; [ done | ].
  eapply (StronglySorted_app_1_elem_of claimOrder
            (take batchSize sorted) (drop batchSize sorted)); [ | done | done ].
  rewrite take_drop. apply StronglySorted_merge_sort; apply _.
Qed.
End claim.

(** Rows of a table with a primary key are told apart by their id. *)
Lemma primary_key (tbl : list TaskRecord) r r' :
  NoDup (TaskRow.id <$> tbl) → r ∈ tbl → r' ∈ tbl → TaskRow.id r = TaskRow.id r' → r = r'.
Proof.
  induction tbl as [ | x tbl IH ]; intros Hnd Hr Hr' Heq.
  - by apply elem_of_nil in Hr.
  - rewrite fmap_cons in Hnd. apply NoDup_cons in Hnd as [Hx Hnd].
    apply elem_of_cons in Hr as [-> | Hr]; apply elem_of_cons in Hr' as [-> | Hr'].
    + done.
    + exfalso. apply Hx. rewrite Heq. by apply list_elem_of_fmap_2.
    + exfalso. apply Hx. rewrite <- Heq. by apply list_elem_of_fmap_2.
    + by apply IH.
Qed.

Lemma primary_key_NoDup (tbl : list TaskRecord) :
  NoDup (TaskRow.id <$> tbl) → NoDup tbl.
Proof. apply NoDup_fmap_1. Qed.

Section delete_returning.
Context (now : Z) (batchSize : nat) (tbl : list TaskRecord).
Context (Hpk : NoDup (TaskRow.id <$> tbl)).

(** With a primary key, [id IN (subquery)] holds of the selected rows only. *)
Lemma deleted_elem r :
  r ∈ filter (λ r, TaskRow.id r ∈ selectIds now batchSize tbl) tbl
  ↔ r ∈ selectRows now batchSize tbl.
Proof.
  rewrite list_elem_of_filter. unfold selectIds. split.
  - intros [Hid Hr]. apply list_elem_of_fmap in Hid as (r0 & Heq & Hr0).
    assert (r = r0) as ->; [ | done ].
    eapply primary_key; eauto. by apply (selectRows_elem now batchSize tbl).
  - intros Hr. split; [ by apply list_elem_of_fmap_2 | ].
    by apply (selectRows_elem now batchSize tbl).
Qed.

Lemma selectRows_NoDup : NoDup (selectRows now batchSize tbl).
Proof.
  unfold selectRows, eligibleSorted.
  eapply sublist_NoDup; [ | apply sublist_take ].
  rewrite merge_sort_Permutation. apply NoDup_filter.
  by apply primary_key_NoDup.
Qed.

Lemma deleted_Permutation :
  filter (λ r, TaskRow.id r ∈ selectIds now batchSize tbl) tbl
  ≡ₚ selectRows now batchSize tbl.
Proof.
  apply NoDup_Permutation.
  - apply NoDup_filter. by apply primary_key_NoDup.
  - apply selectRows_NoDup.
  - apply deleted_elem.
Qed.
End delete_returning.

(** ** Claiming a batch *)

Lemma claimBatch_ok now batchSize st :
  0 ≤ batchSize →
  claimBatch now batchSize st
  = Ok (filter (λ r, TaskRow.id r ∈ selectIds now (Z.to_nat batchSize) (rows st))
          (rows st),
        {| rows := filter (λ r, TaskRow.id r ∉ selectIds now (Z.to_nat batchSize)
                                            (rows st)) (rows st);
           nextId := nextId st |}).
Proof.
  intros Hn. unfold getNextBatchToProcess.
  destruct (Z.ltb_spec batchSize 0); [ lia | done ].
Qed.

Lemma count_matured now (tbl : list TaskRecord) :
  length (filter (λ r, eligible now r = true) tbl)
  = length (filter (λ r, TaskRow.maturityAt r < now) tbl).
Proof.
  induction tbl as [ | x tbl IH ]; [ done | ].
  rewrite !filter_cons.
  destruct (decide (eligible now x = true)) as [He | He];
    destruct (decide (TaskRow.maturityAt x < now)) as [Hm | Hm]; simpl;
    rewrite ?IH; try done; exfalso.
  - by apply Hm, eligible_spec.
  - by apply He, eligible_spec.
Qed.




(** C2.  A claim on a table with a primary key removes exactly the rows it
    hands back, which are the rows the subquery selected: afterwards the
    table holds the rows that were there and were not claimed, unchanged and
    in their old order, and no claimed id is left in it.  The model has no
    state between "selected" and "removed": one call maps the table before to
    the claimed rows and the table after. *)
Theorem claimBatch_removes_exactly_claimed (now batchSize : Z) (st : Store) :
  0 ≤ batchSize →
  NoDup (TaskRow.id <$> rows st) →
  ∃ claimed st',
    claimBatch now batchSize st = Ok (claimed, st')
    ∧ claimed ≡ₚ selectRows now (Z.to_nat batchSize) (rows st)
    ∧ (∀ r, r ∈ rows st' ↔ r ∈ rows st ∧ r ∉ claimed)
    ∧ claimed ++ rows st' ≡ₚ rows st
    ∧ rows st' `sublist_of` rows st
    ∧ (∀ r, r ∈ claimed → TaskRow.id r ∉ TaskRow.id <$> rows st')
    ∧ NoDup (TaskRow.id <$> rows st')
    ∧ nextId st' = nextId st.
Proof.
  intros Hn Hpk. eexists _, _. split; [ by apply claimBatch_ok | ].
  set (ids := selectIds now (Z.to_nat batchSize) (rows st)). simpl.
  split; [ by apply deleted_Permutation | ].
  split; [ | split; [ | split; [ | split; [ | split ] ] ] ].
  - intros r. rewrite !list_elem_of_filter. tauto.
  - apply (filter_app_complement (λ r, TaskRow.id r ∈ ids)).
  - apply sublist_filter.
  - intros r Hr Hin.
    apply list_elem_of_filter in Hr as [Hid _].
    apply list_elem_of_fmap in Hin as (r' & Heq & Hr').
    apply list_elem_of_filter in Hr' as [Hnid _].
    apply Hnid. by rewrite <- Heq.
  - eapply sublist_NoDup; [ apply Hpk | ].
    apply fmap_sublist, sublist_filter.
  - done.
Qed.

Lemma claimBatch_removes_exactly_claimed_witness :
  ∃ claimed st',
    claimBatch 5000 2 priorityStore = Ok (claimed, st')
    ∧ claimed ≡ₚ selectRows 5000 (Z.to_nat 2) (rows priorityStore)
    ∧ (∀ r, r ∈ rows st' ↔ r ∈ rows priorityStore ∧ r ∉ claimed)
    ∧ claimed ++ rows st' ≡ₚ rows priorityStore
    ∧ rows st' `sublist_of` rows priorityStore
    ∧ (∀ r, r ∈ claimed → TaskRow.id r ∉ TaskRow.id <$> rows st')
    ∧ NoDup (TaskRow.id <$> rows st')
    ∧ nextId st' = nextId priorityStore.
Proof.
  apply (claimBatch_removes_exactly_claimed 5000 2 priorityStore).
  - lia.
  - apply (bool_decide_unpack _). vm_compute. exact I.
Defined.

(** C3 (amended).  A row of the table is claimed only if its maturityAt is
    strictly before the current time, and when the batch size covers the
    whole table it is claimed exactly then; a row whose maturityAt is the
    current time or later stays in the table. *)
Theorem claimBatch_claims_strictly_matured (now batchSize : Z) (st : Store)
    (r : TaskRecord) :
  0 ≤ batchSize →
  NoDup (TaskRow.id <$> rows st) →
  r ∈ rows st →
  ∃ claimed st',
    claimBatch now batchSize st = Ok (claimed, st')
    ∧ (r ∈ claimed → TaskRow.maturityAt r < now)
    ∧ ((length (rows st) ≤ Z.to_nat batchSize)%nat →
       (r ∈ claimed ↔ TaskRow.maturityAt r < now))
    ∧ (now ≤ TaskRow.maturityAt r → (r ∉ claimed) ∧ r ∈ rows st').
Proof.
  intros Hn Hpk Hr. eexists _, _. split; [ by apply claimBatch_ok | ].
  set (n := Z.to_nat batchSize).
  assert (Hmature : r ∈ filter (λ r, TaskRow.id r ∈ selectIds now n (rows st))
                          (rows st) → TaskRow.maturityAt r < now).
  { intros Hin. by apply (selectRows_elem now n (rows st)), deleted_elem. }
  split; [ done | ]. split.
  - intros Hlen. split; [ done | ]. intros Hm.
    apply deleted_elem; [ done | ]. unfold selectRows.
    rewrite take_ge.
    + by apply eligibleSorted_elem.
    + unfold eligibleSorted. rewrite merge_sort_Permutation.
      etransitivity; [ apply length_filter | done ].
  - intros Hm.
    assert (Hnot : r ∉ filter (λ r, TaskRow.id r ∈ selectIds now n (rows st))
                         (rows st)).
    { intros Hin. apply Hmature in Hin. lia. }
    split; [ done | ]. simpl. apply list_elem_of_filter. split; [ | done ].
    intros Hid. apply Hnot. by apply list_elem_of_filter.
Qed.

(** C3, the claim as written fails: a row whose maturityAt equals the
    current time is not eligible and a claim leaves it in the table. *)
Lemma row_matured_now_not_claimed :
  maturingNowRow ∈ rows maturingNowStore
  ∧ TaskRow.maturityAt maturingNowRow ≤ 5000
  ∧ eligible 5000 maturingNowRow = false
  ∧ claimBatch 5000 10 maturingNowStore = Ok ([], maturingNowStore).
Proof.
  split; [ apply list_elem_of_singleton; done | by vm_compute ].
Qed.

Lemma claimBatch_claims_strictly_matured_witness :
  ∃ claimed st',
    claimBatch 5000 10 priorityStore = Ok (claimed, st')
    ∧ (urgentRow ∈ claimed → TaskRow.maturityAt urgentRow < 5000)
    ∧ ((length (rows priorityStore) ≤ Z.to_nat 10)%nat →
       (urgentRow ∈ claimed ↔ TaskRow.maturityAt urgentRow < 5000))
    ∧ (5000 ≤ TaskRow.maturityAt urgentRow →
       (urgentRow ∉ claimed) ∧ urgentRow ∈ rows st').
Proof.
  apply (claimBatch_claims_strictly_matured 5000 10 priorityStore urgentRow).
  - lia.
  - apply (bool_decide_unpack _). vm_compute. exact I.
  - unfold priorityStore, priorityRows. simpl. set_solver.
Defined.

(** ** Inserting *)

Lemma findFirst_payloadType_None ty (tbl : list TaskRecord) :
  typedPayloads tbl →
  (∀ r, r ∈ tbl → TaskRow.type r ≠ ty) →
  findFirst_payloadType ty tbl = None.
Proof.
  intros Hwf Hnone. unfold findFirst_payloadType.
  replace (list_find (λ r, p_type (TaskRow.payload r) = Some ty) tbl)
    with (@None (nat * TaskRecord)); [ done | ].
  symmetry. apply list_find_None, Forall_forall. intros r Hr Hp.
  apply (Hnone r Hr).
  unfold typedPayloads in Hwf. rewrite Forall_forall in Hwf.
  specialize (Hwf r Hr). congruence.
Qed.

Lemma findFirst_payloadType_Some ty (tbl : list TaskRecord) r :
  typedPayloads tbl →
  r ∈ tbl → TaskRow.type r = ty →
  is_Some (findFirst_payloadType ty tbl).
Proof.
  intros Hwf Hr Hty. unfold findFirst_payloadType.
  unfold typedPayloads in Hwf. rewrite Forall_forall in Hwf.
  destruct (list_find_elem_of (λ r, p_type (TaskRow.payload r) = Some ty) tbl r)
    as [x Hx]; [ done | by rewrite <- Hty; apply Hwf | ].
  rewrite Hx. by eexists.
Qed.

Lemma addTask_typedPayloads reg now task delayMs st :
  typedPayloads (rows st) →
  typedPayloads (rows (addTask reg now task delayMs st).2).
Proof.
  intros Hwf. unfold addTask.
  destruct (if isUnique reg (type task) then _ else _); [ done | ].
  simpl. apply Forall_app. split; [ done | ]. by apply Forall_singleton.
Qed.

Lemma addTask_creates reg now task delayMs st :
  (isUnique reg (type task) = true →
   findFirst_payloadType (type task) (rows st) = None) →
  ∃ r,
    addTask reg now task delayMs st
    = (Some r, {| rows := rows st ++ [r]; nextId := Pos.succ (nextId st) |})
    ∧ TaskRow.id r = nextId st
    ∧ TaskRow.type r = type task
    ∧ TaskRow.priority r = priority task
    ∧ TaskRow.payload r = serialize task
    ∧ TaskRow.maturityAt r = now + delayMs
    ∧ TaskRow.createdAt r = now.
Proof.
  intros Hfree. unfold addTask.
  destruct (isUnique reg (type task)); [ rewrite Hfree by done | ];
    eexists; (split; [ done | ]); done.
Qed.

(** C5.  Let the type of a task be registered as unique and let the table
    hold rows written by [addTask].  If a row of that type is pending, the
    insert returns none and the table is as before.  If none is pending, the
    insert appends a new record and returns it; in particular after a claim
    has taken every pending row of that type. *)
Theorem addTask_unique (reg : TaskRegistry) (now delayMs : Z) (task : Task)
    (st : Store) :
  isUnique reg (type task) = true →
  typedPayloads (rows st) →
  ((∃ r, r ∈ rows st ∧ TaskRow.type r = type task) →
   addTask reg now task delayMs st = (None, st))
  ∧ ((∀ r, r ∈ rows st → TaskRow.type r ≠ type task) →
     ∃ r,
       addTask reg now task delayMs st
       = (Some r, {| rows := rows st ++ [r]; nextId := Pos.succ (nextId st) |})
       ∧ TaskRow.id r = nextId st
       ∧ TaskRow.type r = type task
       ∧ TaskRow.priority r = priority task
       ∧ TaskRow.payload r = serialize task
       ∧ TaskRow.maturityAt r = now + delayMs
       ∧ TaskRow.createdAt r = now)
  ∧ (∀ claimNow batchSize claimed st',
       claimBatch claimNow batchSize st = Ok (claimed, st') →
       (∀ r, r ∈ rows st → TaskRow.type r = type task → r ∈ claimed) →
       ∃ r,
         addTask reg now task delayMs st'
         = (Some r,
            {| rows := rows st' ++ [r]; nextId := Pos.succ (nextId st') |})
         ∧ TaskRow.type r = type task).
Proof.
  intros Huniq Hwf. split; [ | split ].
  - intros (r & Hr & Hty). unfold addTask. rewrite Huniq.
    by destruct (findFirst_payloadType_Some (type task) (rows st) r Hwf Hr Hty)
      as [x ->].
  - intros Hnone. apply addTask_creates. intros _.
    by apply findFirst_payloadType_None.
  - intros claimNow batchSize claimed st' Hclaim Hall.
    unfold getNextBatchToProcess in Hclaim.
    destruct (batchSize <? 0); [ done | ]. injection Hclaim as <- <-.
    destruct (addTask_creates reg now task delayMs
                {| rows := filter (λ r, TaskRow.id r ∉ selectIds claimNow
                                     (Z.to_nat batchSize) (rows st)) (rows st);
                   nextId := nextId st |}) as (r & Hr & _ & Hty & _).
    + intros _. apply findFirst_payloadType_None; simpl.
      * unfold typedPayloads in *. rewrite Forall_forall in Hwf |- *.
        intros r Hr. apply Hwf. by apply list_elem_of_filter in Hr as [_ ?].
      * intros r Hr Hty. apply list_elem_of_filter in Hr as [Hid Hr].
        specialize (Hall r Hr Hty).
        by apply list_elem_of_filter in Hall as [? _].
    + eauto.
Qed.

Lemma addTask_unique_witness :
  addTask (taskRegistry true) 2000 (ctor DailyReportTask 2000) 0 reportStore
  = (None, reportStore).
Proof.
  refine (proj1 (addTask_unique (taskRegistry true) 2000 0
                   (ctor DailyReportTask 2000) reportStore _ _) _).
  - by vm_compute.
  - unfold reportStore. apply addTask_typedPayloads. constructor.
  - eexists. split; [ apply list_elem_of_singleton; reflexivity | done ].
Defined.

(** Second insert skipped, then accepted once the first row was claimed. *)
Example unique_insert_after_claim :
  ∃ claimed st' r st'',
    (addTask (taskRegistry true) 2000 (ctor DailyReportTask 2000) 0
       reportStore) = (None, reportStore)
    ∧ claimBatch 3000 5 reportStore = Ok (claimed, st')
    ∧ length claimed = 1%nat
    ∧ addTask (taskRegistry true) 4000 (ctor DailyReportTask 4000) 0 st'
      = (Some r, st'')
    ∧ TaskRow.type <$> rows st'' = ["DailyReport"].
Proof. eexists _, _, _, _. by vm_compute. Qed.

(** ** What every table the queue produces satisfies *)

Lemma primaryKey_empty : primaryKey emptyStore.
Proof. split; constructor. Qed.

Lemma primaryKey_NoDup st : primaryKey st → NoDup (TaskRow.id <$> rows st).
Proof. by intros [? _]. Qed.

Lemma addTask_primaryKey reg now task delayMs st :
  primaryKey st → primaryKey (addTask reg now task delayMs st).2.
Proof.
  intros [Hnd Hlt]. unfold addTask.
  destruct (if isUnique reg (type task) then _ else _); [ done | ].
  simpl. split; simpl.
  - rewrite fmap_app. apply NoDup_app. split; [ done | ]. split.
    + intros i Hi Hi'. apply list_elem_of_singleton in Hi'. subst i.
      apply list_elem_of_fmap in Hi as (r & Heq & Hr).
      rewrite Forall_forall in Hlt. specialize (Hlt r Hr). simpl in Heq. lia.
    + apply NoDup_singleton.
  - apply Forall_app. split.
    + eapply Forall_impl; [ exact Hlt | ]. intros r Hr. simpl in *. lia.
    + apply Forall_singleton. simpl. lia.
Qed.

Lemma claimBatch_primaryKey now batchSize st claimed st' :
  primaryKey st →
  claimBatch now batchSize st = Ok (claimed, st') →
  primaryKey st'.
Proof.
  intros [Hnd Hlt] Hclaim. unfold getNextBatchToProcess in Hclaim.
  destruct (batchSize <? 0); [ done | ]. injection Hclaim as <- <-.
  split; simpl.
  - eapply sublist_NoDup; [ exact Hnd | ].
    apply fmap_sublist, sublist_filter.
  - rewrite Forall_forall in Hlt |- *. intros r Hr.
    apply Hlt. by apply list_elem_of_filter in Hr as [_ ?].
Qed.

Lemma claimBatch_typedPayloads now batchSize st claimed st' :
  typedPayloads (rows st) →
  claimBatch now batchSize st = Ok (claimed, st') →
  typedPayloads claimed ∧ typedPayloads (rows st').
Proof.
  intros Hwf Hclaim. unfold getNextBatchToProcess in Hclaim.
  destruct (batchSize <? 0); [ done | ]. injection Hclaim as <- <-.
  unfold typedPayloads in *. rewrite !Forall_forall in *.
  split; intros r Hr; apply Hwf; by apply list_elem_of_filter in Hr as [_ ?].
Qed.

(** [processTask] changes the table through [addTask] or not at all. *)
Lemma processTask_table reg now taskData st :
  (processTask reg now taskData st).2 = st
  ∨ ∃ task delayMs,
      (processTask reg now taskData st).2
      = (addTask reg now task delayMs st).2.
Proof.
  unfold processTask.
  destruct (p_type (TaskRow.payload taskData) ≫= _) as [inst | ]; [ | by left ].
  destruct (run (proto inst) (this inst)) as [[result | ] self]; [ | by left ].
  destruct result; try by left.
  destruct (0 <=? nextTry (proto inst) self); [ | by left ].
  right. eauto.
Qed.

Lemma processTask_primaryKey reg now taskData st :
  primaryKey st → primaryKey (processTask reg now taskData st).2.
Proof.
  intros Hpk.
  destruct (processTask_table reg now taskData st) as [-> | (? & ? & ->)];
    [ done | by apply addTask_primaryKey ].
Qed.

Lemma processTask_typedPayloads reg now taskData st :
  typedPayloads (rows st) →
  typedPayloads (rows (processTask reg now taskData st).2).
Proof.
  intros Hwf.
  destruct (processTask_table reg now taskData st) as [-> | (? & ? & ->)];
    [ done | by apply addTask_typedPayloads ].
Qed.

Lemma processAll_invariant reg now tasks st :
  primaryKey st → typedPayloads (rows st) →
  primaryKey (processAll reg now tasks st)
  ∧ typedPayloads (rows (processAll reg now tasks st)).
Proof.
  unfold processAll. revert st.
  induction tasks as [ | taskData tasks IH ]; intros st Hpk Hwf; [ done | ].
  simpl. apply IH.
  - by apply processTask_primaryKey.
  - by apply processTask_typedPayloads.
Qed.

(** The runner keeps the primary key and the typed payloads. *)
Lemma runnerTurn_invariant reg now st :
  primaryKey st → typedPayloads (rows st) →
  primaryKey (runnerTurn reg now st)
  ∧ typedPayloads (rows (runnerTurn reg now st)).
Proof.
  intros Hpk Hwf. unfold runnerTurn.
  destruct (getNextBatchToProcess now 5 st) as [[claimed st'] | ] eqn:Hclaim;
    [ | done ].
  apply processAll_invariant.
  - by eapply claimBatch_primaryKey.
  - by eapply claimBatch_typedPayloads.
Qed.

(** ** Retrying *)

(** A claim on a table of one matured row takes it. *)
Lemma claimBatch_single now batchSize r next :
  0 < batchSize →
  TaskRow.maturityAt r < now →
  claimBatch now batchSize {| rows := [r]; nextId := next |}
  = Ok ([r], {| rows := []; nextId := next |}).
Proof.
  intros Hn Hm. rewrite claimBatch_ok by lia. simpl.
  assert (Hsel : selectIds now (Z.to_nat batchSize) [r] = [TaskRow.id r]).
  { unfold selectIds, selectRows, eligibleSorted.
    rewrite filter_cons, decide_True by by apply eligible_spec.
    rewrite filter_nil.
    destruct (Z.to_nat batchSize) as [ | n ] eqn:Hnat; [ lia | ].
    change (merge_sort claimOrder [r]) with [r]. simpl. by rewrite take_nil. }
  rewrite Hsel.
  rewrite !filter_cons, !filter_nil.
  rewrite decide_True by (apply list_elem_of_singleton; done).
  rewrite decide_False; [ done | ].
  intros Hnot. apply Hnot. by apply list_elem_of_singleton.
Qed.

Section retry.
Context (reg : TaskRegistry) (cls : TaskClass) (ty : string).
Context (Hreg : types reg !! ty = Some cls).
Context (Hpolicy : ∀ t, nextTry cls t = HealthCheckTask_nextTry t).
Context (Hfails : ∀ t, run cls t = (Returns FAILURE, t)).

(** Processing a claimed row of the failing task: while its payload carries
    fewer than three tries and the duplicate check lets the insert through,
    a row with one more try is appended; from three tries on the table is
    left alone. *)
Lemma processTask_retry now r k m st :
  retryRow ty k m r →
  (k < 3 →
   (isUnique reg ty = true → findFirst_payloadType ty (rows st) = None) →
   ∃ r', processTask reg now r st
         = (Returns FAILURE,
            {| rows := rows st ++ [r']; nextId := Pos.succ (nextId st) |})
         ∧ retryRow ty (k + 1) (now + 60000) r'
         ∧ TaskRow.id r' = nextId st)
  ∧ (3 ≤ k → processTask reg now r st = (Returns FAILURE, st)).
Proof.
  intros (Hty & Htries & _). unfold processTask.
  rewrite Hty. cbn [mbind option_bind]. unfold build. rewrite Hreg.
  cbn [proto this]. rewrite Hfails, Hpolicy.
  unfold HealthCheckTask_nextTry, Object_assign. cbn [tries type].
  rewrite Htries, Hty. cbn [default from_option id]. split.
  - intros Hk Hfree. destruct (Z.ltb_spec k 3); [ | lia ].
    change (0 <=? 60 * 1000) with true. cbv iota.
    match goal with
    | |- context [addTask reg now ?t ?d st] =>
        destruct (addTask_creates reg now t d st Hfree)
          as (r' & -> & Hid & _ & _ & Hpay & Hmat & _)
    end.
    exists r'. split; [ reflexivity | ]. split; [ | done ].
    unfold retryRow. rewrite Hpay, Hmat. simpl. by repeat split.
  - intros Hk. destruct (Z.ltb_spec k 3); [ lia | done ].
Qed.

Lemma runnerTurn_retry now st r k m :
  rows st = [r] → retryRow ty k m r → m < now →
  (k < 3 →
   ∃ r', runnerTurn reg now st
         = {| rows := [r']; nextId := Pos.succ (nextId st) |}
         ∧ retryRow ty (k + 1) (now + 60000) r')
  ∧ (3 ≤ k →
     runnerTurn reg now st = {| rows := []; nextId := nextId st |}).
Proof.
  intros Hrows Hrow Hm. destruct st as [tbl next]. simpl in *. subst tbl.
  unfold runnerTurn. rewrite claimBatch_single; [ | lia | ].
  2: { destruct Hrow as (_ & _ & ->). done. }
  unfold processAll. simpl.
  destruct (processTask_retry now r k m {| rows := []; nextId := next |} Hrow)
    as [Hlt Hge].
  split; intros Hk.
  - destruct (Hlt Hk) as (r' & -> & Hr' & _); [ | eauto ].
    intros _. done.
  - by rewrite (Hge Hk).
Qed.

Lemma runnerTurn_empty now next :
  runnerTurn reg now {| rows := []; nextId := next |}
  = {| rows := []; nextId := next |}.
Proof. done. Qed.
End retry.

(** C6.  A task with the policy "60000 ms while tries < 3, else -1" whose
    [run] always returns FAILURE is queued with [tries = 0] in an empty
    table, and the runner takes turns at times by which the pending row has
    matured.  The first three turns each replace the row by a new one whose
    payload carries tries 1, 2 and 3 and which matures 60000 ms after the
    turn; the fourth turn inserts nothing, and no later turn does: the id
    counter shows four rows written in all, the original and three
    re-insertions. *)
Theorem retry_escalation (reg : TaskRegistry) (cls : TaskClass) (task : Task)
    (now0 t1 t2 t3 t4 : Z) :
  types reg !! type task = Some cls →
  (∀ t, nextTry cls t = HealthCheckTask_nextTry t) →
  (∀ t, run cls t = (Returns FAILURE, t)) →
  tries task = 0 →
  now0 < t1 → t1 + 60000 < t2 → t2 + 60000 < t3 → t3 + 60000 < t4 →
  ∃ r0 r1 r2 r3,
    (addTask reg now0 task 0 emptyStore).2 = {| rows := [r0]; nextId := 2 |}
    ∧ retryRow (type task) 0 now0 r0
    ∧ runnerTurns reg [t1] {| rows := [r0]; nextId := 2 |}
      = {| rows := [r1]; nextId := 3 |}
    ∧ retryRow (type task) 1 (t1 + 60000) r1
    ∧ runnerTurns reg [t1; t2] {| rows := [r0]; nextId := 2 |}
      = {| rows := [r2]; nextId := 4 |}
    ∧ retryRow (type task) 2 (t2 + 60000) r2
    ∧ runnerTurns reg [t1; t2; t3] {| rows := [r0]; nextId := 2 |}
      = {| rows := [r3]; nextId := 5 |}
    ∧ retryRow (type task) 3 (t3 + 60000) r3
    ∧ (∀ later,
         runnerTurns reg ([t1; t2; t3; t4] ++ later)
           {| rows := [r0]; nextId := 2 |}
         = {| rows := []; nextId := 5 |}).
Proof.
  intros Hreg Hpolicy Hfails Htries H1 H2 H3 H4.
  destruct (addTask_creates reg now0 task 0 emptyStore)
    as (r0 & Hadd & _ & _ & _ & Hpay & Hmat & _).
  { intros _. done. }
  assert (Hr0 : retryRow (type task) 0 now0 r0).
  { unfold retryRow. rewrite Hpay, Hmat. simpl. rewrite Htries.
    repeat split; try done. lia. }
  destruct (runnerTurn_retry reg cls (type task) Hreg Hpolicy Hfails t1
              {| rows := [r0]; nextId := 2 |} r0 0 now0 eq_refl Hr0 H1)
    as [Hturn1 _].
  destruct Hturn1 as (r1 & Hst1 & Hr1); [ lia | ].
  destruct (runnerTurn_retry reg cls (type task) Hreg Hpolicy Hfails t2
              {| rows := [r1]; nextId := 3 |} r1 1 (t1 + 60000) eq_refl Hr1 H2)
    as [Hturn2 _].
  destruct Hturn2 as (r2 & Hst2 & Hr2); [ lia | ].
  destruct (runnerTurn_retry reg cls (type task) Hreg Hpolicy Hfails t3
              {| rows := [r2]; nextId := 4 |} r2 2 (t2 + 60000) eq_refl Hr2 H3)
    as [Hturn3 _].
  destruct Hturn3 as (r3 & Hst3 & Hr3); [ lia | ].
  destruct (runnerTurn_retry reg cls (type task) Hreg Hpolicy Hfails t4
              {| rows := [r3]; nextId := 5 |} r3 3 (t3 + 60000) eq_refl Hr3 H4)
    as [_ Hturn4].
  specialize (Hturn4 ltac:(lia)).
  change (Pos.succ (nextId _)) with 3%positive in Hst1.
  change (Pos.succ (nextId _)) with 4%positive in Hst2.
  change (Pos.succ (nextId _)) with 5%positive in Hst3.
  change (nextId _) with 5%positive in Hturn4.
  exists r0, r1, r2, r3. unfold runnerTurns. cbn [foldl app].
  rewrite Hadd, Hst1, Hst2, Hst3, Hturn4.
  repeat (split; [ done | ]).
  intros later. induction later as [ | t later IH ]; [ done | ].
  cbn [foldl]. by rewrite runnerTurn_empty.
Qed.

Lemma retry_escalation_witness :
  ∃ r1 r2 r3,
    rows (runnerTurns (taskRegistry false) [2000] failingStore) = [r1]
    ∧ retryRow "HealthCheck" 1 62000 r1
    ∧ rows (runnerTurns (taskRegistry false) [2000; 70000] failingStore)
      = [r2]
    ∧ retryRow "HealthCheck" 2 130000 r2
    ∧ rows (runnerTurns (taskRegistry false) [2000; 70000; 140000]
              failingStore) = [r3]
    ∧ retryRow "HealthCheck" 3 200000 r3
    ∧ runnerTurns (taskRegistry false) [2000; 70000; 140000; 210000]
        failingStore = {| rows := []; nextId := 5 |}.
Proof.
  destruct (retry_escalation (taskRegistry false) (HealthCheckTask false)
              (ctor (HealthCheckTask false) 1000)
              1000 2000 70000 140000 210000)
    as (r0 & r1 & r2 & r3 & H0 & _ & H1 & Hr1 & H2 & Hr2 & H3 & Hr3 & H4);
    [ by vm_compute | done | done | done | lia | lia | lia | lia | ].
  exists r1, r2, r3. unfold failingStore. rewrite H0, H1, H2, H3.
  repeat (split; [ done | ]).
  specialize (H4 []). by rewrite app_nil_r in H4.
Defined.

(** The payloads of the retry rows of an always failing health check. *)
Example retry_escalation_tries :
  p_tries ∘ TaskRow.payload
    <$> rows (runnerTurns (taskRegistry false) [2000] failingStore)
  = [Some 1]
  ∧ p_tries ∘ TaskRow.payload
      <$> rows (runnerTurns (taskRegistry false) [2000; 70000] failingStore)
    = [Some 2]
  ∧ p_tries ∘ TaskRow.payload
      <$> rows (runnerTurns (taskRegistry false) [2000; 70000; 140000]
                  failingStore)
    = [Some 3].
Proof. by vm_compute. Qed.

(** ** Faults in [run] and unknown types *)

(** Whatever [run] does, the promise of [processTask] settles with a status. *)
Lemma processTask_never_rejects reg now taskData st :
  ∃ status st', processTask reg now taskData st = (Returns status, st').
Proof.
  unfold processTask.
  destruct (p_type (TaskRow.payload taskData) ≫= _) as [inst | ]; [ | eauto ].
  destruct (run (proto inst) (this inst)) as [[result | ] self]; [ | eauto ].
  destruct result; eauto.
  destruct (0 <=? nextTry (proto inst) self); eauto.
Qed.

(** A fault in [run] ends in the [catch]: FAILURE, and the table untouched. *)
Lemma processTask_run_throws reg now taskData st ty inst :
  p_type (TaskRow.payload taskData) = Some ty →
  build reg now ty (TaskRow.payload taskData) = Some inst →
  (run (proto inst) (this inst)).1 = Throws →
  processTask reg now taskData st = (Returns FAILURE, st).
Proof.
  intros Hty Hbuild Hthrows. unfold processTask. rewrite Hty. simpl.
  rewrite Hbuild. destruct (run (proto inst) (this inst)) as [outcome self].
  simpl in Hthrows. by subst outcome.
Qed.

(** C7, the code at a task whose [run] throws and whose [nextTry] asks for a
    retry after 60000 ms: [processTask] settles with FAILURE and does not
    reject, but inserts no row; the same task with a [run] that returns
    FAILURE is re-inserted with tries 1. *)
Theorem processTask_fault_not_retried :
  processTask (flakyRegistry Throws) 2000 flakyRow claimedStore
  = (Returns FAILURE, claimedStore)
  ∧ (∃ inst,
       build (flakyRegistry Throws) 2000 "Flaky" (TaskRow.payload flakyRow)
       = Some inst
       ∧ nextTry (proto inst) (this inst) = 60000)
  ∧ (∃ r',
       processTask (flakyRegistry (Returns FAILURE)) 2000 flakyRow claimedStore
       = (Returns FAILURE, {| rows := [r']; nextId := 3 |})
       ∧ retryRow "Flaky" 1 62000 r').
Proof.
  split; [ by vm_compute | ]. split.
  - eexists. split; by vm_compute.
  - eexists. split; by vm_compute.
Qed.

(** C9.  When the payload of a claimed row names no type or a type that is
    not registered, [processTask] settles with FAILURE and leaves the table
    as it is: no retry row is inserted.  [build] returns none for an unknown
    type name. *)
Theorem processTask_unknown_type (reg : TaskRegistry) (now : Z)
    (taskData : TaskRecord) (st : Store) :
  (∀ ty, p_type (TaskRow.payload taskData) = Some ty → types reg !! ty = None) →
  processTask reg now taskData st = (Returns FAILURE, st)
  ∧ (∀ ty, p_type (TaskRow.payload taskData) = Some ty →
           build reg now ty (TaskRow.payload taskData) = None).
Proof.
  intros Hunknown.
  assert (Hbuild : ∀ ty, p_type (TaskRow.payload taskData) = Some ty →
                         build reg now ty (TaskRow.payload taskData) = None).
  { intros ty Hty. unfold build. by rewrite (Hunknown ty Hty). }
  split; [ | done ].
  unfold processTask.
  destruct (p_type (TaskRow.payload taskData)) as [ty | ] eqn:Hty; simpl.
  - by rewrite (Hbuild ty).
  - done.
Qed.

Lemma processTask_unknown_type_witness :
  processTask (taskRegistry true) 2000 unknownRow reportStore
  = (Returns FAILURE, reportStore).
Proof.
  refine (proj1 (processTask_unknown_type (taskRegistry true) 2000 unknownRow
                   reportStore _)).
  intros ty Hty. injection Hty as <-. by vm_compute.
Defined.

(** ** Two concurrent claims *)


(** With no lock held by anyone else the subquery is that of a lone call. *)
Lemma selectRowsSkipLocked_nil now n (tbl : list TaskRecord) :
  selectRowsSkipLocked now n [] tbl = selectRows now n tbl.
Proof.
  unfold selectRowsSkipLocked, selectRows, eligibleSorted.
  do 2 f_equal. apply list_filter_iff. intros r. split.
  - by intros [? _].
  - intros ?. split; [ done | apply not_elem_of_nil ].
Qed.

Lemma phaseOf_setPhase c p tbl cfg : phaseOf c (setPhase c p tbl cfg) = p.
Proof. by destruct c. Qed.


Lemma table_setPhase c p tbl cfg : table (setPhase c p tbl cfg) = tbl.
Proof. by destruct c. Qed.

(** A call running alone is [getNextBatchToProcess]. *)
Lemma lone_call_is_claimBatch calls c tbl next :
  0 ≤ callBatchSize (calls c) →
  ∃ claimed st',
    claimBatch (callNow (calls c)) (callBatchSize (calls c))
      {| rows := tbl; nextId := next |} = Ok (claimed, st')
    ∧ phaseOf c (runSchedule calls [c; c] (initial tbl)) = TxDone claimed
    ∧ table (runSchedule calls [c; c] (initial tbl)) = rows st'.
Proof.
  intros Hn. eexists _, _. split; [ by apply claimBatch_ok | ].
  unfold runSchedule, txStep.
  assert (Hidle : phaseOf c (initial tbl) = TxIdle) by by destruct c.
  assert (Hoth : phaseOf (other c) (initial tbl) = TxIdle) by by destruct c.
  rewrite Hidle, Hoth. destruct (Z.ltb_spec (callBatchSize (calls c)) 0); [ lia | ].
  rewrite phaseOf_setPhase, !table_setPhase. simpl.
  rewrite selectRowsSkipLocked_nil, phaseOf_setPhase. by unfold selectIds.
Qed.



















Example concurrent_claims_example :
  held (phaseA (runSchedule exampleCalls exampleSchedule (initial priorityRows)))
  = [3; 4]%positive
  ∧ held (phaseB (runSchedule exampleCalls exampleSchedule
                    (initial priorityRows)))
    = [1; 2]%positive
  ∧ table (runSchedule exampleCalls exampleSchedule (initial priorityRows)) = [].
Proof. by vm_compute. Qed.

(** * Further properties of the code *)

(** ** [addTask] *)

Lemma addTask_two_awaits reg now task delayMs st :
  addTask reg now task delayMs st
  = match addTask_lookup reg task st with
    | Some _ => (None, st)
    | None =>
        let '(r, st') := addTask_insert now task delayMs st in (Some r, st')
    end.
Proof. reflexivity. Qed.

Lemma findFirst_payloadType_is_Some ty (tbl : list TaskRecord) :
  is_Some (findFirst_payloadType ty tbl)
  ↔ ∃ r, r ∈ tbl ∧ p_type (TaskRow.payload r) = Some ty.
Proof.
  unfold findFirst_payloadType. split.
  - intros [r Hr].
    destruct (list_find _ tbl) as [[i r'] | ] eqn:Hfind; [ | done ].
    apply list_find_Some in Hfind as (Hi & Hp & _).
    exists r'. split; [ by eapply list_elem_of_lookup_2 | done ].
  - intros (r & Hr & Hp).
    destruct (list_find_elem_of (λ r, p_type (TaskRow.payload r) = Some ty) tbl r)
      as [x ->]; [ done | done | ]. by eexists.
Qed.

Lemma findFirst_payloadType_pendingOf ty (tbl : list TaskRecord) :
  findFirst_payloadType ty tbl = None ↔ pendingOf ty tbl = [].
Proof.
  unfold pendingOf. split.
  - intros Hnone.
    destruct (filter _ tbl) as [ | r l ] eqn:Hfilter; [ done | ].
    assert (Hr : r ∈ filter (λ r, p_type (TaskRow.payload r) = Some ty) tbl)
      by (rewrite Hfilter; left).
    apply list_elem_of_filter in Hr as [Hp Hr].
    assert (Hsome : is_Some (findFirst_payloadType ty tbl))
      by (apply findFirst_payloadType_is_Some; eauto).
    rewrite Hnone in Hsome. by destruct Hsome.
  - intros Hempty.
    destruct (findFirst_payloadType ty tbl) as [x | ] eqn:Hf; [ | done ].
    assert (Hsome : is_Some (findFirst_payloadType ty tbl)) by by rewrite Hf.
    apply findFirst_payloadType_is_Some in Hsome as (r & Hr & Hp).
    assert (Hin : r ∈ filter (λ r, p_type (TaskRow.payload r) = Some ty) tbl)
      by by apply list_elem_of_filter.
    rewrite Hempty in Hin. by apply elem_of_nil in Hin.
Qed.

Lemma addTask_outcome (reg : TaskRegistry) (now : Z)
    (task : Task) (delayMs : Z) (st : Store) :
  ((addTask reg now task delayMs st).1 = None
   ↔ isUnique reg (type task) = true
     ∧ ∃ r, r ∈ rows st ∧ p_type (TaskRow.payload r) = Some (type task))
  ∧ ((addTask reg now task delayMs st).1 = None →
     (addTask reg now task delayMs st).2 = st)
  ∧ (∀ r, (addTask reg now task delayMs st).1 = Some r →
       (addTask reg now task delayMs st).2
       = {| rows := rows st ++ [r]; nextId := Pos.succ (nextId st) |}
       ∧ TaskRow.id r = nextId st
       ∧ TaskRow.type r = type task
       ∧ TaskRow.priority r = priority task
       ∧ TaskRow.payload r = serialize task
       ∧ TaskRow.maturityAt r = now + delayMs
       ∧ TaskRow.createdAt r = now
       ∧ TaskRow.updatedAt r = now).
Proof.
  rewrite addTask_two_awaits. unfold addTask_lookup.
  destruct (isUnique reg (type task)) eqn:Huniq.
  - destruct (findFirst_payloadType (type task) (rows st)) as [x | ] eqn:Hf.
    + simpl. split; [ | split; [ done | done ] ].
      split; [ | done ]. intros _. split; [ done | ].
      apply findFirst_payloadType_is_Some. by rewrite Hf.
    + simpl. split; [ | split; [ done | ] ].
      * split; [ done | ]. intros [_ Hex].
        apply findFirst_payloadType_is_Some in Hex. rewrite Hf in Hex.
        by destruct Hex.
      * intros r [= <-]. by repeat split.
  - simpl. split; [ | split; [ done | ] ].
    + split; [ done | ]. by intros [? _].
    + intros r [= <-]. by repeat split.
Qed.

(** X1.  [addTask] returns none exactly when the type of the task is unique
    and a pending row carries that type in its payload, and then the table
    is as before; in every other case it appends one row, which it returns:
    the row has the next id, the type, priority and serialization of the
    task, matures [delayMs] after the call and is stamped with the time of
    the call. *)
Theorem addTask_skips_exactly_duplicates (reg : TaskRegistry) (now : Z)
    (task : Task) (delayMs : Z) (st : Store) :
  ((addTask reg now task delayMs st).1 = None
   ↔ isUnique reg (type task) = true
     ∧ ∃ r, r ∈ rows st ∧ p_type (TaskRow.payload r) = Some (type task))
  ∧ ((addTask reg now task delayMs st).1 = None →
     (addTask reg now task delayMs st).2 = st)
  ∧ (∀ r, (addTask reg now task delayMs st).1 = Some r →
       (addTask reg now task delayMs st).2
       = {| rows := rows st ++ [r]; nextId := Pos.succ (nextId st) |}
       ∧ TaskRow.id r = nextId st
       ∧ TaskRow.type r = type task
       ∧ TaskRow.priority r = priority task
       ∧ TaskRow.payload r = serialize task
       ∧ TaskRow.maturityAt r = now + delayMs
       ∧ TaskRow.createdAt r = now
       ∧ TaskRow.updatedAt r = now).
Proof. apply addTask_outcome. Qed.

Lemma pendingOf_app ty (l1 l2 : list TaskRecord) :
  pendingOf ty (l1 ++ l2) = pendingOf ty l1 ++ pendingOf ty l2.
Proof. apply filter_app. Qed.

Lemma uniquePending_sublist reg (l1 l2 : list TaskRecord) :
  l1 `sublist_of` l2 → uniquePending reg l2 → uniquePending reg l1.
Proof.
  intros Hsub Huniq ty Hty. specialize (Huniq ty Hty).
  assert (Hlen : pendingOf ty l1 `sublist_of` pendingOf ty l2).
  { unfold pendingOf. clear -Hsub.
    induction Hsub as [ | x l1 l2 Hsub IH | x l1 l2 Hsub IH ].
    - done.
    - rewrite !filter_cons. destruct (decide _); [ by constructor | done ].
    - rewrite filter_cons. destruct (decide _); [ by constructor | done ]. }
  apply sublist_length in Hlen. lia.
Qed.

Lemma addTask_uniquePending reg now task delayMs st :
  uniquePending reg (rows st) →
  uniquePending reg (rows (addTask reg now task delayMs st).2).
Proof.
  intros Huniq. rewrite addTask_two_awaits. unfold addTask_lookup.
  destruct (isUnique reg (type task)) eqn:Htask.
  - destruct (findFirst_payloadType (type task) (rows st)) as [x | ] eqn:Hf;
      [ done | ].
    simpl. intros ty Hty. rewrite pendingOf_app.
    unfold pendingOf at 2. rewrite filter_cons, filter_nil. simpl.
    destruct (decide (Some (type task) = Some ty)) as [[= <-] | Hne].
    + apply findFirst_payloadType_pendingOf in Hf. by rewrite Hf.
    + rewrite app_nil_r. by apply Huniq.
  - simpl. intros ty Hty. rewrite pendingOf_app.
    unfold pendingOf at 2. rewrite filter_cons, filter_nil. simpl.
    destruct (decide (Some (type task) = Some ty)) as [[= <-] | Hne].
    + congruence.
    + rewrite app_nil_r. by apply Huniq.
Qed.

Lemma addTask_tableOk (reg : TaskRegistry) (now : Z) (task : Task)
    (delayMs : Z) (st : Store) :
  tableOk reg st → tableOk reg (addTask reg now task delayMs st).2.
Proof.
  intros (Hpk & Hwf & Huniq). split; [ | split ].
  - by apply addTask_primaryKey.
  - by apply addTask_typedPayloads.
  - by apply addTask_uniquePending.
Qed.

Lemma tableOk_empty reg : tableOk reg emptyStore.
Proof.
  split; [ apply primaryKey_empty | ]. split; [ constructor | ].
  intros ty _. simpl. lia.
Qed.

(** X2.  The lookup and the insert of [addTask] are not one step.  When two
    calls for the same unique type are in flight and both lookups are
    answered before either insert, neither sees a pending row: both insert,
    both return a record, and the table ends with two pending rows of the
    unique type, which two calls one after the other never produce. *)
Theorem addTask_racing_duplicates (reg : TaskRegistry) (nowA nowB : Z)
    (taskA taskB : Task) (delayA delayB : Z) (st : Store) :
  isUnique reg (type taskA) = true →
  type taskB = type taskA →
  pendingOf (type taskA) (rows st) = [] →
  (∃ rA rB,
     addTask_racing reg nowA nowB taskA taskB delayA delayB st
     = (Some rA, Some rB,
        {| rows := rows st ++ [rA; rB];
           nextId := Pos.succ (Pos.succ (nextId st)) |})
     ∧ pendingOf (type taskA) (rows st ++ [rA; rB]) = [rA; rB]
     ∧ ¬ uniquePending reg (rows st ++ [rA; rB]))
  ∧ (∃ rA,
       addTask reg nowA taskA delayA st
       = (Some rA, {| rows := rows st ++ [rA];
                      nextId := Pos.succ (nextId st) |})
       ∧ addTask reg nowB taskB delayB
           {| rows := rows st ++ [rA]; nextId := Pos.succ (nextId st) |}
         = (None, {| rows := rows st ++ [rA];
                     nextId := Pos.succ (nextId st) |})).
Proof.
  intros Huniq Hsame Hnone.
  assert (Hf : findFirst_payloadType (type taskA) (rows st) = None)
    by by apply findFirst_payloadType_pendingOf.
  split.
  - eexists _, _. unfold addTask_racing, addTask_lookup.
    rewrite Hsame, Huniq, Hf. simpl. split; [ by rewrite <- app_assoc | ].
    split.
    + rewrite pendingOf_app, Hnone. unfold pendingOf.
      rewrite !filter_cons, filter_nil. simpl. rewrite ?Hsame.
      by rewrite !decide_True.
    + intros Hbad. specialize (Hbad (type taskA) Huniq).
      rewrite pendingOf_app, Hnone in Hbad. unfold pendingOf in Hbad.
      rewrite !filter_cons, filter_nil in Hbad. simpl in Hbad.
      rewrite ?Hsame in Hbad. rewrite !decide_True in Hbad by done.
      simpl in Hbad. lia.
  - eexists. rewrite !addTask_two_awaits. unfold addTask_lookup.
    rewrite Hsame, Huniq, Hf. simpl. split; [ done | ].
    match goal with
    | |- context [findFirst_payloadType _ (rows st ++ ?l)] =>
        destruct (findFirst_payloadType (type taskA) (rows st ++ l))
          as [x | ] eqn:Hf2; [ done | ]
    end.
    apply findFirst_payloadType_pendingOf in Hf2.
    rewrite pendingOf_app, Hnone in Hf2. unfold pendingOf in Hf2.
    rewrite filter_cons, decide_True in Hf2 by done. done.
Qed.

Lemma addTask_racing_duplicates_witness :
  ∃ rA rB st',
    addTask_racing (taskRegistry true) 1000 1001 (ctor DailyReportTask 1000)
      (ctor DailyReportTask 1001) 0 0 emptyStore
    = (Some rA, Some rB, st')
    ∧ ¬ uniquePending (taskRegistry true) (rows st').
Proof.
  destruct (addTask_racing_duplicates (taskRegistry true) 1000 1001
              (ctor DailyReportTask 1000) (ctor DailyReportTask 1001) 0 0
              emptyStore) as [(rA & rB & Hrace & _ & Hbad) _].
  - by vm_compute.
  - reflexivity.
  - reflexivity.
  - exists rA, rB. eexists. split; [ exact Hrace | exact Hbad ].
Defined.

(** ** [addBatchTasks] *)

Lemma addBatchTasks_from_spec reg clock spacingMs tasks :
  ∀ i st,
    rows (addBatchTasks_from reg clock spacingMs i tasks st).2
    = rows st ++ (addBatchTasks_from reg clock spacingMs i tasks st).1
    ∧ (length (addBatchTasks_from reg clock spacingMs i tasks st).1
       ≤ length tasks)%nat
    ∧ (tableOk reg st →
       tableOk reg (addBatchTasks_from reg clock spacingMs i tasks st).2)
    ∧ (∀ r, r ∈ (addBatchTasks_from reg clock spacingMs i tasks st).1 →
         ∃ k task,
           tasks !! k = Some task
           ∧ TaskRow.type r = type task
           ∧ TaskRow.priority r = priority task
           ∧ TaskRow.payload r = serialize task
           ∧ TaskRow.maturityAt r
             = clock (i + k)%nat + Z.of_nat (i + k) * spacingMs).
Proof.
  induction tasks as [ | task rest IH ]; intros i st; simpl.
  - rewrite app_nil_r. split; [ done | ]. split; [ done | ].
    split; [ done | ]. intros r Hr. by apply elem_of_nil in Hr.
  - pose proof (addTask_outcome reg (clock i) task
                  (Z.of_nat i * spacingMs) st) as (_ & Hskip & Hins).
    pose proof (addTask_tableOk reg (clock i) task
                  (Z.of_nat i * spacingMs) st) as Hok.
    destruct (addTask reg (clock i) task (Z.of_nat i * spacingMs) st)
      as [result st1]. simpl in Hskip, Hins, Hok.
    specialize (IH (S i) st1).
    destruct (addBatchTasks_from reg clock spacingMs (S i) rest st1)
      as [results st2]. simpl in IH.
    destruct IH as (Hrows & Hlen & Hinv & Hfrom).
    assert (Hshift : ∀ r, r ∈ results →
              ∃ k task', (task :: rest) !! k = Some task'
                ∧ TaskRow.type r = type task'
                ∧ TaskRow.priority r = priority task'
                ∧ TaskRow.payload r = serialize task'
                ∧ TaskRow.maturityAt r
                  = clock (i + k)%nat + Z.of_nat (i + k) * spacingMs).
    { intros r Hr. destruct (Hfrom r Hr) as (k & task' & Hk & ? & ? & ? & Hm).
      exists (S k), task'. split; [ done | ].
      replace (i + S k)%nat with (S i + k)%nat by lia. done. }
    destruct result as [r0 | ]; simpl.
    + destruct (Hins r0 eq_refl) as (-> & _ & Hty & Hprio & Hpay & Hmat & _).
      simpl in Hrows. rewrite Hrows, <- app_assoc. simpl.
      split; [ done | ]. split; [ lia | ]. split; [ auto | ].
      intros r Hr. apply elem_of_cons in Hr as [-> | Hr]; [ | by apply Hshift ].
      exists 0%nat, task. rewrite Nat.add_0_r. by repeat split.
    + rewrite (Hskip eq_refl) in *.
      split; [ done | ]. split; [ lia | ]. split; [ auto | done ].
Qed.


Lemma addBatchTasks_from_all reg clock spacingMs tasks :
  Forall (λ task, isUnique reg (type task) = false) tasks →
  ∀ i st,
    length (addBatchTasks_from reg clock spacingMs i tasks st).1
    = length tasks
    ∧ ∀ k task, tasks !! k = Some task →
        ∃ r, (addBatchTasks_from reg clock spacingMs i tasks st).1 !! k
             = Some r
          ∧ TaskRow.type r = type task
          ∧ TaskRow.payload r = serialize task
          ∧ TaskRow.maturityAt r
            = clock (i + k)%nat + Z.of_nat (i + k) * spacingMs.
Proof.
  induction 1 as [ | task rest Htask _ IH ]; intros i st; simpl.
  - split; [ done | ]. by intros k task Hk.
  - pose proof (addTask_outcome reg (clock i) task
                  (Z.of_nat i * spacingMs) st) as (Hiff & _ & Hins).
    destruct (addTask reg (clock i) task (Z.of_nat i * spacingMs) st)
      as [[r0 | ] st1]; simpl in Hiff, Hins.
    + specialize (IH (S i) st1).
      destruct (addBatchTasks_from reg clock spacingMs (S i) rest st1)
        as [results st2]. simpl in IH |- *. destruct IH as [Hlen Hall].
      split; [ by rewrite Hlen | ].
      destruct (Hins r0 eq_refl) as (_ & _ & Hty & _ & Hpay & Hmat & _).
      intros [ | k] task' Hk; simpl in Hk |- *.
      * injection Hk as <-. exists r0. rewrite Nat.add_0_r. by repeat split.
      * destruct (Hall k task' Hk) as (r & ? & ? & ? & Hm). exists r.
        replace (i + S k)%nat with (S i + k)%nat by lia. by repeat split.
    + destruct (proj1 Hiff eq_refl) as [Huniq _]. congruence.
Qed.

(** X4.  When none of the task types is unique, [addBatchTasks] inserts
    every task: it returns one record per task, in order, and the record of
    the [k]-th task carries its type and serialization and matures
    [k * spacingMs] after the time of its insert. *)
Theorem addBatchTasks_spaces_all (reg : TaskRegistry) (clock : nat → Z)
    (tasks : list Task) (spacingMs : Z) (st : Store) :
  Forall (λ task, isUnique reg (type task) = false) tasks →
  length (addBatchTasks reg clock tasks spacingMs st).1 = length tasks
  ∧ ∀ k task, tasks !! k = Some task →
      ∃ r, (addBatchTasks reg clock tasks spacingMs st).1 !! k = Some r
        ∧ TaskRow.type r = type task
        ∧ TaskRow.payload r = serialize task
        ∧ TaskRow.maturityAt r = clock k + Z.of_nat k * spacingMs.
Proof.
  intros Hall. unfold addBatchTasks.
  destruct (addBatchTasks_from_all reg clock spacingMs tasks Hall 0 st)
    as [Hlen Hk].
  split; [ done | ]. intros k task Htask.
  destruct (Hk k task Htask) as (r & ?). by exists r.
Qed.

Lemma addBatchTasks_spaces_all_witness :
  TaskRow.maturityAt
    <$> (addBatchTasks (taskRegistry true) (λ _, 5000) mailBatch 1000
           emptyStore).1
  = [5000; 6000].
Proof.
  destruct (addBatchTasks_spaces_all (taskRegistry true) (λ _, 5000)
              mailBatch 1000 emptyStore) as [Hlen Hk].
  - repeat constructor.
  - destruct (Hk 0%nat (ctor SendEmailTask 1000) eq_refl)
      as (r0 & H0 & _ & _ & Hm0).
    destruct (Hk 1%nat (ctor SendEmailTask 1000) eq_refl)
      as (r1 & H1 & _ & _ & Hm1).
    destruct (addBatchTasks (taskRegistry true) (λ _, 5000) mailBatch 1000
                emptyStore).1 as [ | x0 [ | x1 [ | x2 l ] ] ];
      try discriminate.
    injection H0 as ->. injection H1 as ->. simpl. by rewrite Hm0, Hm1.
Defined.


Lemma addTask_skips_exactly_duplicates_witness :
  (addTask (taskRegistry true) 2000 (ctor DailyReportTask 2000) 0
     reportStore).2 = reportStore.
Proof.
  destruct (addTask_skips_exactly_duplicates (taskRegistry true) 2000
              (ctor DailyReportTask 2000) 0 reportStore) as (_ & Hskip & _).
  apply Hskip. by vm_compute.
Defined.

(** ** [processTask] *)

(** The instance [processTask] rebuilds from a claimed row. *)
Lemma processTask_build reg now taskData ty cls :
  p_type (TaskRow.payload taskData) = Some ty →
  types reg !! ty = Some cls →
  (ty' ← p_type (TaskRow.payload taskData);
   build reg now ty' (TaskRow.payload taskData))
  = Some {| proto := cls;
            this := Object_assign (ctor cls now) (TaskRow.payload taskData) |}.
Proof. intros -> Hcls. simpl. unfold build. by rewrite Hcls. Qed.


Lemma processTask_negative_nextTry reg now taskData st ty cls :
  p_type (TaskRow.payload taskData) = Some ty →
  types reg !! ty = Some cls →
  (∀ t, nextTry cls t < 0) →
  (processTask reg now taskData st).2 = st
  ∧ (processTask reg now taskData st).1
    = match (run cls (Object_assign (ctor cls now)
                         (TaskRow.payload taskData))).1 with
      | Returns status => Returns status
      | Throws => Returns FAILURE
      end.
Proof.
  intros Hty Hcls Hneg. unfold processTask.
  rewrite (processTask_build reg now taskData ty cls Hty Hcls). simpl.
  destruct (run cls _) as [[result | ] self]; [ | done ].
  destruct result; try done. simpl.
  destruct (Z.leb_spec 0 (nextTry cls self)) as [Hdelay | Hdelay];
    [ | done ].
  specialize (Hneg self). lia.
Qed.

(** X6.  A task whose [nextTry] is negative, as the one every task inherits
    from [Task], is never re-inserted: whatever [run] does, [processTask]
    leaves the table as it was and settles with the status [run] returned,
    or with FAILURE if [run] threw. *)
Theorem processTask_abandons_without_policy (reg : TaskRegistry) (now : Z)
    (taskData : TaskRecord) (st : Store) (ty : string) (cls : TaskClass) :
  p_type (TaskRow.payload taskData) = Some ty →
  types reg !! ty = Some cls →
  (∀ t, nextTry cls t < 0) →
  (processTask reg now taskData st).2 = st
  ∧ (processTask reg now taskData st).1
    = match (run cls (Object_assign (ctor cls now)
                         (TaskRow.payload taskData))).1 with
      | Returns status => Returns status
      | Throws => Returns FAILURE
      end.
Proof. apply processTask_negative_nextTry. Qed.

Lemma processTask_abandons_without_policy_witness :
  (processTask (taskRegistry true) 2000
     (exampleRow 3 "DailyReport" 100 1000 1000) reportStore).2
  = reportStore.
Proof.
  refine (proj1 (processTask_abandons_without_policy (taskRegistry true) 2000
                   (exampleRow 3 "DailyReport" 100 1000 1000) reportStore
                   "DailyReport" DailyReportTask _ _ _)).
  - reflexivity.
  - by vm_compute.
  - intros t. unfold DailyReportTask, Task_nextTry. simpl. lia.
Defined.

(** X7.  The retry of a unique type is lost when a row of that type is
    pending again by the time the task fails: [addTask] skips the insert,
    [processTask] settles with FAILURE and the table is as before, so the
    failed task leaves no record. *)
Theorem processTask_retry_lost_to_pending (reg : TaskRegistry) (now : Z)
    (taskData : TaskRecord) (st : Store) (ty : string) (cls : TaskClass) :
  p_type (TaskRow.payload taskData) = Some ty →
  types reg !! ty = Some cls →
  (∀ t, run cls t = (Returns FAILURE, t)) →
  isUnique reg ty = true →
  (∃ r, r ∈ rows st ∧ p_type (TaskRow.payload r) = Some ty) →
  processTask reg now taskData st = (Returns FAILURE, st).
Proof.
  intros Hty Hcls Hfails Huniq Hpending. unfold processTask.
  rewrite (processTask_build reg now taskData ty cls Hty Hcls).
  cbn [proto this]. rewrite Hfails.
  destruct (0 <=? nextTry cls _); [ | done ].
  f_equal.
  match goal with
  | |- (addTask reg now ?t ?d st).2 = st =>
      pose proof (addTask_outcome reg now t d st)
        as (Hiff & Hskip & _)
  end.
  apply Hskip, Hiff. simpl. rewrite Hty. simpl. by split.
Qed.

Lemma processTask_retry_lost_to_pending_witness :
  processTask (taskRegistry false) 2000 healthRow failingStore
  = (Returns FAILURE, failingStore).
Proof.
  apply (processTask_retry_lost_to_pending (taskRegistry false) 2000
           healthRow failingStore "HealthCheck" (HealthCheckTask false)).
  - reflexivity.
  - by vm_compute.
  - done.
  - by vm_compute.
  - eexists. split; [ apply list_elem_of_singleton; reflexivity | done ].
Defined.

(** X8.  A retry keeps what the claimed payload carried: when [run] returns
    FAILURE without touching the task and [nextTry] allows a retry that the
    duplicate check lets through, the new row has the type and priority of
    the claimed payload in its columns, and its payload has the same type,
    priority and createdAt with tries one higher; only fields the payload
    lacks come from the constructor. *)
Theorem processTask_retry_keeps_payload (reg : TaskRegistry) (now : Z)
    (taskData : TaskRecord) (st : Store) (ty : string) (cls : TaskClass)
    (k prio created : Z) :
  TaskRow.payload taskData
  = {| p_tries := Some k; p_type := Some ty; p_createdAt := Some created;
       p_priority := Some prio; p_extra := p_extra (TaskRow.payload taskData) |} →
  types reg !! ty = Some cls →
  (∀ t, run cls t = (Returns FAILURE, t)) →
  0 ≤ nextTry cls (Object_assign (ctor cls now) (TaskRow.payload taskData)) →
  (isUnique reg ty = true → pendingOf ty (rows st) = []) →
  ∃ r,
    processTask reg now taskData st
    = (Returns FAILURE,
       {| rows := rows st ++ [r]; nextId := Pos.succ (nextId st) |})
    ∧ TaskRow.type r = ty
    ∧ TaskRow.priority r = prio
    ∧ p_type (TaskRow.payload r) = Some ty
    ∧ p_priority (TaskRow.payload r) = Some prio
    ∧ p_createdAt (TaskRow.payload r) = Some created
    ∧ p_tries (TaskRow.payload r) = Some (k + 1)
    ∧ TaskRow.createdAt r = now.
Proof.
  intros Hpay Hcls Hfails Hdelay Hfree. unfold processTask.
  assert (Hty : p_type (TaskRow.payload taskData) = Some ty) by by rewrite Hpay.
  rewrite (processTask_build reg now taskData ty cls Hty Hcls).
  cbn [proto this]. rewrite Hfails.
  destruct (Z.leb_spec 0 (nextTry cls (Object_assign (ctor cls now)
                                         (TaskRow.payload taskData))))
    as [_ | Hneg]; [ | lia ].
  match goal with
  | |- context [addTask reg now ?t ?d st] =>
      destruct (addTask_creates reg now t d st)
        as (r & -> & _ & Hrty & Hrprio & Hrpay & _ & Hcreated)
  end.
  { simpl. rewrite Hty. simpl. intros Huniq.
    by apply findFirst_payloadType_pendingOf, Hfree. }
  exists r. split; [ done | ].
  rewrite Hrty, Hrprio, Hrpay, Hcreated. simpl. rewrite Hpay. simpl.
  by repeat split.
Qed.

Lemma processTask_retry_keeps_payload_witness :
  ∃ r,
    processTask (taskRegistry false) 9000 healthRow claimedStore
    = (Returns FAILURE, {| rows := [r]; nextId := 3 |})
    ∧ TaskRow.priority r = 200
    ∧ p_createdAt (TaskRow.payload r) = Some 1000
    ∧ p_tries (TaskRow.payload r) = Some 1.
Proof.
  destruct (processTask_retry_keeps_payload (taskRegistry false) 9000
              healthRow claimedStore "HealthCheck" (HealthCheckTask false)
              0 200 1000)
    as (r & Heq & _ & Hprio & _ & _ & Hcreated & Htries & _).
  - reflexivity.
  - by vm_compute.
  - done.
  - by vm_compute.
  - done.
  - exists r. by repeat split.
Defined.

(** ** The runner *)

Lemma processAll_appends reg now tasks :
  ∀ st, ∃ added,
    rows (processAll reg now tasks st) = rows st ++ added
    ∧ (length added ≤ length tasks)%nat.
Proof.
  unfold processAll.
  induction tasks as [ | taskData tasks IH ]; intros st; simpl.
  - exists []. by rewrite app_nil_r.
  - destruct (IH (processTask reg now taskData st).2) as (added & -> & Hlen).
    destruct (processTask_table reg now taskData st)
      as [-> | (task & delayMs & ->)].
    + exists added. split; [ done | lia ].
    + destruct (addTask_outcome reg now task delayMs st)
        as (_ & Hskip & Hins).
      destruct (addTask reg now task delayMs st) as [[r | ] st'];
        simpl in *.
      * destruct (Hins r eq_refl) as (-> & _). simpl.
        exists (r :: added). rewrite <- app_assoc. split; [ done | simpl; lia ].
      * rewrite (Hskip eq_refl). exists added. split; [ done | lia ].
Qed.

Lemma claimed_length now n (tbl : list TaskRecord) :
  NoDup (TaskRow.id <$> tbl) →
  length (filter (λ r, TaskRow.id r ∈ selectIds now n tbl) tbl)
  = Nat.min n (length (filter (λ r, TaskRow.maturityAt r < now) tbl)).
Proof.
  intros Hpk. rewrite (deleted_Permutation now n tbl Hpk).
  by rewrite selectRows_length, count_matured.
Qed.

Lemma filter_complement_length {A} (P : A → Prop) `{∀ x, Decision (P x)}
    (l : list A) :
  (length (filter P l) + length (filter (λ x, ¬ P x) l))%nat = length l.
Proof. by rewrite <- length_app, filter_app_complement. Qed.

(** X9.  One turn of the runner touches only rows that have matured: what
    it leaves of the table is the old table without the claimed rows, in
    the old order, followed by the rows re-inserted for retries, at most one
    per claimed row and so at most five.  A row that has not matured is
    still there, and the table never gets longer. *)
Theorem runnerTurn_touches_only_matured (reg : TaskRegistry) (now : Z)
    (st : Store) :
  NoDup (TaskRow.id <$> rows st) →
  ∃ added,
    rows (runnerTurn reg now st)
    = filter (λ r, TaskRow.id r ∉ selectIds now 5 (rows st)) (rows st) ++ added
    ∧ (length added
       ≤ Nat.min 5
           (length (filter (λ r, (TaskRow.maturityAt r < now)%Z) (rows st))))%nat
    ∧ (∀ r, r ∈ rows st → now ≤ TaskRow.maturityAt r →
            r ∈ rows (runnerTurn reg now st))
    ∧ (length (rows (runnerTurn reg now st)) ≤ length (rows st))%nat.
Proof.
  intros Hpk. unfold runnerTurn.
  rewrite claimBatch_ok by lia. change (Z.to_nat 5) with 5%nat.
  destruct (processAll_appends reg now
              (filter (λ r, TaskRow.id r ∈ selectIds now 5 (rows st)) (rows st))
              {| rows := filter (λ r, TaskRow.id r ∉ selectIds now 5 (rows st))
                           (rows st);
                 nextId := nextId st |}) as (added & Hrows & Hlen).
  exists added. rewrite Hrows. simpl.
  rewrite (claimed_length now 5 (rows st) Hpk) in Hlen.
  split; [ done | ]. split; [ done | ]. split.
  - intros r Hr Hm. apply elem_of_app. left.
    apply list_elem_of_filter. split; [ | done ].
    intros Hid.
    assert (Hin : r ∈ filter (λ r, TaskRow.id r ∈ selectIds now 5 (rows st))
                        (rows st)) by by apply list_elem_of_filter.
    apply deleted_elem in Hin; [ | done ].
    apply selectRows_elem in Hin as [_ Hlt]. lia.
  - rewrite length_app.
    pose proof (filter_complement_length
                  (λ r, TaskRow.id r ∈ selectIds now 5 (rows st)) (rows st)).
    pose proof (claimed_length now 5 (rows st) Hpk). lia.
Qed.

Lemma runnerTurn_touches_only_matured_witness :
  maturingNowRow ∈ rows (runnerTurn (taskRegistry true) 5000 maturingNowStore).
Proof.
  destruct (runnerTurn_touches_only_matured (taskRegistry true) 5000
              maturingNowStore) as (added & _ & _ & Hstay & _).
  - apply (bool_decide_unpack _). vm_compute. exact I.
  - apply Hstay.
    + apply list_elem_of_singleton. reflexivity.
    + vm_compute. discriminate.
Defined.

Lemma processAll_no_retry reg now tasks st :
  neverRetries reg →
  processAll reg now tasks st = st.
Proof.
  intros Hneg. unfold processAll.
  induction tasks as [ | taskData tasks IH ]; [ done | ]. simpl.
  assert (Hsame : (processTask reg now taskData st).2 = st);
    [ | by rewrite Hsame ].
  unfold neverRetries in Hneg.
  destruct (p_type (TaskRow.payload taskData)) as [ty | ] eqn:Hty.
  - destruct (types reg !! ty) as [cls | ] eqn:Hcls.
    + apply (processTask_negative_nextTry reg now taskData st ty cls);
        eauto.
    + unfold processTask. rewrite Hty. simpl. unfold build. by rewrite Hcls.
  - unfold processTask. by rewrite Hty.
Qed.

Lemma filter_all_length {A} (P : A → Prop) `{∀ x, Decision (P x)}
    (l : list A) :
  Forall P l → length (filter P l) = length l.
Proof.
  induction 1 as [ | x l Hx _ IH ]; [ done | ].
  rewrite filter_cons, decide_True by done. simpl. by rewrite IH.
Qed.

Lemma runnerTurn_no_retry reg now st :
  neverRetries reg →
  NoDup (TaskRow.id <$> rows st) →
  Forall (λ r, TaskRow.maturityAt r < now) (rows st) →
  rows (runnerTurn reg now st) `sublist_of` rows st
  ∧ length (rows (runnerTurn reg now st)) = (length (rows st) - 5)%nat.
Proof.
  intros Hneg Hpk Hall. unfold runnerTurn.
  rewrite claimBatch_ok by lia. change (Z.to_nat 5) with 5%nat.
  rewrite processAll_no_retry by done. simpl.
  split; [ apply sublist_filter | ].
  pose proof (filter_complement_length
                (λ r, TaskRow.id r ∈ selectIds now 5 (rows st)) (rows st)).
  pose proof (claimed_length now 5 (rows st) Hpk) as Hclaimed.
  rewrite (filter_all_length _ _ Hall) in Hclaimed. lia.
Qed.

(** X10.  With a registry whose tasks never ask for a retry and a table
    whose rows have all matured, every turn of the runner takes five rows
    off the table (all of them when fewer are left) and puts none back, so
    [k] turns leave [n - 5k] of [n] rows and the table is empty after
    [n / 5] turns, rounded up. *)
Theorem runner_drains_table (reg : TaskRegistry) (times : list Z)
    (st : Store) :
  neverRetries reg →
  NoDup (TaskRow.id <$> rows st) →
  Forall (λ now, Forall (λ r, TaskRow.maturityAt r < now) (rows st)) times →
  rows (runnerTurns reg times st) `sublist_of` rows st
  ∧ length (rows (runnerTurns reg times st))
    = (length (rows st) - 5 * length times)%nat
  ∧ ((length (rows st) ≤ 5 * length times)%nat →
     rows (runnerTurns reg times st) = []).
Proof.
  intros Hneg. unfold runnerTurns. revert st.
  induction times as [ | now times IH ]; intros st Hpk Hall.
  - simpl. split; [ done | ]. split; [ lia | ].
    intros Hlen. apply nil_length_inv. lia.
  - apply Forall_cons in Hall as [Hnow Hall]. cbn [foldl].
    destruct (runnerTurn_no_retry reg now st Hneg Hpk Hnow) as [Hsub Hlen].
    destruct (IH (runnerTurn reg now st)) as (Hsub' & Hlen' & _).
    + eapply sublist_NoDup; [ exact Hpk | by apply fmap_sublist ].
    + eapply Forall_impl; [ exact Hall | ]. intros t Ht.
      rewrite Forall_forall in Ht |- *. intros r Hr. apply Ht.
      by eapply elem_of_sublist.
    + split; [ by etransitivity | ]. split.
      * rewrite Hlen', Hlen. simpl. lia.
      * intros Hshort. apply nil_length_inv.
        rewrite Hlen', Hlen. simpl in *. lia.
Qed.

Lemma mailRegistry_neverRetries : neverRetries mailRegistry.
Proof.
  intros ty cls t Hcls. unfold mailRegistry, register in Hcls. simpl in Hcls.
  apply lookup_insert_Some in Hcls as [[_ <-] | [_ Hcls]].
  - simpl. unfold Task_nextTry. lia.
  - apply lookup_insert_Some in Hcls as [[_ <-] | [_ Hcls]].
    + simpl. unfold Task_nextTry. lia.
    + by rewrite lookup_empty in Hcls.
Qed.

Lemma runner_drains_table_witness :
  rows (runnerTurns mailRegistry [5000] priorityStore) = [].
Proof.
  destruct (runner_drains_table mailRegistry [5000] priorityStore)
    as (_ & _ & Hempty).
  - apply mailRegistry_neverRetries.
  - apply (bool_decide_unpack _). vm_compute. exact I.
  - repeat constructor.
  - apply Hempty. simpl. lia.
Defined.

(** ** More on claiming *)

Lemma delete_in_nil (tbl : list TaskRecord) :
  filter (λ r, TaskRow.id r ∈ []) tbl = []
  ∧ filter (λ r, TaskRow.id r ∉ []) tbl = tbl.
Proof.
  induction tbl as [ | x l [IH1 IH2] ]; [ done | ].
  rewrite !filter_cons.
  rewrite decide_False by apply not_elem_of_nil.
  rewrite decide_True by apply not_elem_of_nil.
  by rewrite IH1, IH2.
Qed.

Lemma claimBatch_nothing now (batchSize : Z) st :
  0 ≤ batchSize →
  selectIds now (Z.to_nat batchSize) (rows st) = [] →
  claimBatch now batchSize st = Ok ([], st).
Proof.
  intros Hn Hids. rewrite claimBatch_ok, Hids by done.
  destruct (delete_in_nil (rows st)) as [-> ->]. by destruct st.
Qed.

(** X11.  A claim has nothing to take when the table is empty, when no row
    has matured, or when the batch size is zero: it returns the empty list
    and the table stays exactly as it was.  A negative batch size fails the
    whole call. *)
Theorem claimBatch_returns_nothing (now batchSize : Z) (st : Store) :
  (0 ≤ batchSize →
   rows st = [] ∨ Forall (λ r, now ≤ TaskRow.maturityAt r) (rows st)
   ∨ batchSize = 0 →
   claimBatch now batchSize st = Ok ([], st))
  ∧ (batchSize < 0 → claimBatch now batchSize st = DbError).
Proof.
  split.
  - intros Hn Hcase. apply claimBatch_nothing; [ done | ].
    unfold selectIds, selectRows.
    destruct Hcase as [Hempty | [Hnone | ->]]; [ | | done ].
    + rewrite Hempty. change (eligibleSorted now []) with (@nil TaskRecord).
      by rewrite take_nil.
    + assert (Hsorted : eligibleSorted now (rows st) = []).
      { destruct (eligibleSorted now (rows st)) as [ | r l ] eqn:Hs;
          [ done | ].
        assert (Hr : r ∈ eligibleSorted now (rows st)) by (rewrite Hs; left).
        apply eligibleSorted_elem in Hr as [Hr Hm].
        rewrite Forall_forall in Hnone. specialize (Hnone r Hr). lia. }
      by rewrite Hsorted, take_nil.
  - intros Hneg. unfold getNextBatchToProcess.
    destruct (Z.ltb_spec batchSize 0); [ done | lia ].
Qed.

Lemma claimBatch_returns_nothing_witness :
  claimBatch 5000 10 maturingNowStore = Ok ([], maturingNowStore).
Proof.
  apply (proj1 (claimBatch_returns_nothing 5000 10 maturingNowStore)).
  - lia.
  - right. left. repeat constructor. vm_compute. discriminate.
Defined.

Lemma matured_after_claim now n (tbl : list TaskRecord) :
  NoDup (TaskRow.id <$> tbl) →
  (length (filter (λ r, (TaskRow.maturityAt r < now)%Z)
             (filter (λ r, TaskRow.id r ∉ selectIds now n tbl) tbl))
   + length (filter (λ r, TaskRow.id r ∈ selectIds now n tbl) tbl))%nat
  = length (filter (λ r, TaskRow.maturityAt r < now) tbl).
Proof.
  intros Hpk.
  rewrite <- (filter_app_complement (λ r, TaskRow.id r ∈ selectIds now n tbl) tbl)
    at 3.
  rewrite filter_app, length_app.
  rewrite (filter_all_length (λ r, TaskRow.maturityAt r < now)
             (filter (λ r, TaskRow.id r ∈ selectIds now n tbl) tbl)).
  - lia.
  - apply Forall_forall. intros r Hr.
    apply deleted_elem in Hr; [ | done ].
    by apply selectRows_elem in Hr as [_ ?].
Qed.

(** X12.  Two claims one after the other at the same time, of sizes [n] and
    [m], take together what one claim of size [n + m] is entitled to: as
    many rows as [n + m] and the matured rows allow, no row twice, every row
    of the first batch at or before every row of the second in the order
    "priority descending, createdAt ascending", and no matured row left in
    the table strictly before a row that was taken. *)
Theorem claimBatch_twice (now n m : Z) (st : Store) :
  0 ≤ n → 0 ≤ m →
  NoDup (TaskRow.id <$> rows st) →
  ∃ first st1 second st2,
    claimBatch now n st = Ok (first, st1)
    ∧ claimBatch now m st1 = Ok (second, st2)
    ∧ (∀ r, r ∈ first → r ∉ second)
    ∧ (length first + length second)%nat
      = Nat.min (Z.to_nat (n + m))
          (length (filter (λ r, TaskRow.maturityAt r < now) (rows st)))
    ∧ (∀ r r', r ∈ first → r' ∈ second → claimOrder r r')
    ∧ (∀ r r', r ∈ first ++ second → r' ∈ rows st2 →
               TaskRow.maturityAt r' < now → claimOrder r r').
Proof.
  intros Hn Hm Hpk.
  eexists _, _, _, _. split; [ by apply claimBatch_ok | ].
  split; [ by apply claimBatch_ok | ]. simpl.
  set (ids1 := selectIds now (Z.to_nat n) (rows st)).
  set (rest := filter (λ r, TaskRow.id r ∉ ids1) (rows st)).
  set (ids2 := selectIds now (Z.to_nat m) rest).
  assert (Hpk' : NoDup (TaskRow.id <$> rest)).
  { eapply sublist_NoDup; [ exact Hpk | ].
    apply fmap_sublist, sublist_filter. }
  assert (Hfirst : ∀ r r', r ∈ filter (λ r, TaskRow.id r ∈ ids1) (rows st) →
            r' ∈ rest → TaskRow.maturityAt r' < now → claimOrder r r').
  { intros r r' Hr Hr' Hmat.
    apply list_elem_of_filter in Hr' as [Hnot Hr'].
    apply (selectRows_first now (Z.to_nat n) (rows st)); try done.
    - by apply deleted_elem.
    - intros Hin. apply Hnot. by apply list_elem_of_fmap_2. }
  split; [ | split; [ | split ] ].
  - intros r Hr Hr'.
    apply list_elem_of_filter in Hr as [Hid _].
    apply list_elem_of_filter in Hr' as [_ Hr'].
    by apply list_elem_of_filter in Hr' as [Hnid _].
  - pose proof (matured_after_claim now (Z.to_nat n) (rows st) Hpk) as Hsum.
    pose proof (claimed_length now (Z.to_nat n) (rows st) Hpk) as Hlen1.
    pose proof (claimed_length now (Z.to_nat m) rest Hpk') as Hlen2.
    fold ids1 in Hsum, Hlen1. fold rest in Hsum. fold ids2 in Hlen2.
    rewrite Z2Nat.inj_add by done. lia.
  - intros r r' Hr Hr'.
    apply deleted_elem in Hr'; [ | done ].
    apply selectRows_elem in Hr' as [Hr' Hmat]. by apply Hfirst.
  - intros r r' Hr Hr' Hmat.
    apply list_elem_of_filter in Hr' as [Hnot2 Hr'].
    apply elem_of_app in Hr as [Hr | Hr].
    + by apply Hfirst.
    + apply (selectRows_first now (Z.to_nat m) rest); try done.
      * by apply deleted_elem.
      * intros Hin. apply Hnot2. by apply list_elem_of_fmap_2.
Qed.

Lemma claimBatch_twice_witness :
  ∃ first st1 second st2,
    claimBatch 5000 1 priorityStore = Ok (first, st1)
    ∧ claimBatch 5000 2 st1 = Ok (second, st2)
    ∧ (length first + length second)%nat = 3%nat.
Proof.
  destruct (claimBatch_twice 5000 1 2 priorityStore)
    as (first & st1 & second & st2 & H1 & H2 & _ & Hlen & _).
  - lia.
  - lia.
  - apply (bool_decide_unpack _). vm_compute. exact I.
  - exists first, st1, second, st2. split; [ done | ]. split; [ done | ].
    rewrite Hlen. by vm_compute.
Defined.

(** ** More on the registry *)

Lemma truthyFrequency_Some frequency f :
  truthyFrequency frequency = Some f → frequency = Some f ∧ f ≠ 0.
Proof.
  unfold truthyFrequency. destruct frequency as [f' | ]; [ | done ].
  destruct (Z.eqb_spec f' 0); [ done | ]. by intros [= <-].
Qed.

Lemma registryOk_empty : registryOk emptyRegistry.
Proof.
  split.
  - intros ty f Hf. unfold getTimedTasks in Hf. simpl in Hf.
    by rewrite lookup_empty in Hf.
  - intros ty Hty. unfold isUnique in Hty. simpl in Hty.
    apply bool_decide_eq_true in Hty. by apply not_elem_of_empty in Hty.
Qed.

Lemma register_types_lookup typeStr cls frequency options reg ty :
  types (register typeStr cls frequency options reg) !! ty
  = if decide (typeStr = ty) then Some cls else types reg !! ty.
Proof. unfold register. simpl. apply lookup_insert. Qed.

Lemma registryOk_register typeStr cls frequency options reg :
  registryOk reg → registryOk (register typeStr cls frequency options reg).
Proof.
  intros [Htimed Huniq]. split.
  - intros ty f Hf. rewrite register_types_lookup.
    destruct (decide (typeStr = ty)) as [<- | Hne].
    + rewrite getTimedTasks_register in Hf. split; [ | by eexists ].
      destruct (truthyFrequency frequency) as [f' | ] eqn:Htr.
      * injection Hf as <-. by apply truthyFrequency_Some in Htr as [_ ?].
      * by apply Htimed in Hf as [? _].
    + apply Htimed. unfold getTimedTasks, register in Hf. simpl in Hf.
      destruct (truthyFrequency frequency); [ | done ].
      by rewrite lookup_insert_ne in Hf.
  - intros ty Hty. rewrite register_types_lookup.
    destruct (decide (typeStr = ty)) as [<- | Hne]; [ by eexists | ].
    apply Huniq. rewrite isUnique_register in Hty.
    rewrite (bool_decide_eq_false_2 (ty = typeStr)) in Hty by done.
    by rewrite andb_false_r in Hty.
Qed.

Lemma registerAll_keeps reg regs :
  registryOk reg →
  registryOk (registerAll regs reg)
  ∧ (∀ ty, is_Some (types reg !! ty) →
           is_Some (types (registerAll regs reg) !! ty))
  ∧ ∀ r, r ∈ regs → is_Some (types (registerAll regs reg) !! regType r).
Proof.
  unfold registerAll. revert reg.
  induction regs as [ | r0 regs IH ]; intros reg Hok; simpl.
  - split; [ done | ]. split; [ done | ].
    intros r Hr. by apply elem_of_nil in Hr.
  - destruct (IH (RegisterTask r0 reg)) as (Hok' & Hkeep & Hall).
    { by apply registryOk_register. }
    split; [ done | ]. split.
    + intros ty Hty. apply Hkeep. unfold RegisterTask.
      rewrite register_types_lookup. by destruct (decide _); [ eexists | ].
    + intros r Hr. apply elem_of_cons in Hr as [-> | Hr]; [ | by apply Hall ].
      apply Hkeep. unfold RegisterTask. rewrite register_types_lookup.
      rewrite decide_True by done. by eexists.
Qed.


(** X13.  However many classes are registered, and in whatever order and
    with whatever repetitions, the registry stays consistent: every type
    with a frequency and every unique type can be built, no stored frequency
    is zero, and every registered type name can be built. *)
Theorem registerAll_consistent (regs : list Registration) :
  registryOk (registerAll regs emptyRegistry)
  ∧ ∀ r now data, r ∈ regs →
      is_Some (build (registerAll regs emptyRegistry) now (regType r) data).
Proof.
  destruct (registerAll_keeps emptyRegistry regs registryOk_empty)
    as (Hok & _ & Hall).
  split; [ done | ]. intros r now data Hr.
  destruct (Hall r Hr) as [cls Hcls]. unfold build. rewrite Hcls. by eexists.
Qed.

Lemma registerAll_consistent_witness :
  is_Some (build (registerAll
                    [ mkRegistration "SendEmail" SendEmailTask None None;
                      mkRegistration "SendEmail" ProcessDataTask (Some 0)
                        None ]
                    emptyRegistry)
             1000 "SendEmail" emptyPayload).
Proof.
  apply (proj2 (registerAll_consistent
                  [ mkRegistration "SendEmail" SendEmailTask None None;
                    mkRegistration "SendEmail" ProcessDataTask (Some 0)
                      None ])
           (mkRegistration "SendEmail" SendEmailTask None None)).
  apply list_elem_of_here.
Defined.

(** X14.  Registering a type leaves every other type name as it was:
    [build], [getTimedTasks] and [isUnique] answer for it as before. *)
Theorem register_leaves_others (reg : TaskRegistry) (typeStr ty : string)
    (cls : TaskClass) (frequency : option Z)
    (options : option RegisterOptions) (now : Z) (data : Payload) :
  ty ≠ typeStr →
  build (register typeStr cls frequency options reg) now ty data
  = build reg now ty data
  ∧ getTimedTasks (register typeStr cls frequency options reg) !! ty
    = getTimedTasks reg !! ty
  ∧ isUnique (register typeStr cls frequency options reg) ty
    = isUnique reg ty.
Proof.
  intros Hne. split; [ | split ].
  - unfold build. rewrite register_types_lookup.
    by rewrite decide_False by done.
  - unfold getTimedTasks, register. simpl.
    destruct (truthyFrequency frequency); [ | done ].
    by rewrite lookup_insert_ne.
  - rewrite isUnique_register.
    rewrite (bool_decide_eq_false_2 (ty = typeStr)) by done.
    by rewrite andb_false_r.
Qed.

Lemma register_leaves_others_witness :
  isUnique (register "SendEmail" SendEmailTask None
              (Some {| unique := Some true |}) (taskRegistry true))
    "ProcessData"
  = isUnique (taskRegistry true) "ProcessData".
Proof.
  refine (proj2 (proj2 (register_leaves_others (taskRegistry true)
                          "SendEmail" "ProcessData" SendEmailTask None
                          (Some {| unique := Some true |}) 0 emptyPayload _))).
  discriminate.
Defined.




(** ** The scheduler *)



Lemma scheduleNextRun_stopped reg sch now task st :
  isRunning sch = false → scheduleNextRun reg sch now task st = st.
Proof. unfold scheduleNextRun. by intros ->. Qed.

Lemma scheduleNextRun_tableOk reg sch now task st :
  tableOk reg st → tableOk reg (scheduleNextRun reg sch now task st).
Proof.
  intros Hok. unfold scheduleNextRun.
  destruct (isRunning sch); [ by apply addTask_tableOk | done ].
Qed.

Lemma timerTicks_pending reg sch timer times :
  isRunning sch = true →
  isUnique reg (type (timerTask timer)) = true →
  ∀ st, pendingOf (type (timerTask timer)) (rows st) ≠ [] →
        timerTicks reg sch timer times st = st.
Proof.
  intros Hrun Huniq. unfold timerTicks.
  induction times as [ | now times IH ]; intros st Hpending; [ done | ].
  cbn [foldl].
  assert (Hsame : scheduleNextRun reg sch now (timerTask timer) st = st).
  { unfold scheduleNextRun. rewrite Hrun.
    destruct (addTask_outcome reg now (timerTask timer) 0 st)
      as (Hiff & Hskip & _).
    apply Hskip, Hiff. split; [ done | ].
    destruct (pendingOf (type (timerTask timer)) (rows st)) as [ | r l ]
      eqn:Hp; [ done | ].
    exists r.
    assert (Hr : r ∈ pendingOf (type (timerTask timer)) (rows st))
      by (rewrite Hp; left).
    apply list_elem_of_filter in Hr as [? ?]. by split. }
  rewrite Hsame. by apply IH.
Qed.

(** X16.  While the scheduler runs and nothing claims, the timer of a unique
    type leaves a single pending row however often it fires: the first tick
    inserts it, with zero delay and the serialization of the task the timer
    holds, and every later tick is skipped.  Once the scheduler is stopped a
    tick that still fires changes nothing. *)
Theorem timerTicks_unique_type (reg : TaskRegistry) (sch : TaskScheduler)
    (timer : Timer) (now : Z) (later : list Z) (st : Store) :
  (isRunning sch = true →
   isUnique reg (type (timerTask timer)) = true →
   pendingOf (type (timerTask timer)) (rows st) = [] →
   ∃ r,
     timerTicks reg sch timer (now :: later) st
     = {| rows := rows st ++ [r]; nextId := Pos.succ (nextId st) |}
     ∧ TaskRow.payload r = serialize (timerTask timer)
     ∧ TaskRow.type r = type (timerTask timer)
     ∧ TaskRow.maturityAt r = now)
  ∧ timerTicks reg (schedulerStop sch) timer (now :: later) st = st.
Proof.
  split.
  - intros Hrun Huniq Hnone. unfold timerTicks. cbn [foldl].
    fold (timerTicks reg sch timer later
            (scheduleNextRun reg sch now (timerTask timer) st)).
    unfold scheduleNextRun at 1. rewrite Hrun.
    destruct (addTask_creates reg now (timerTask timer) 0 st)
      as (r & Hadd & _ & Hty & _ & Hpay & Hmat & _).
    { intros _. by apply findFirst_payloadType_pendingOf. }
    rewrite Hadd. cbn [snd].
    rewrite timerTicks_pending; [ | done | done | ].
    + exists r. repeat split; try done. lia.
    + simpl. rewrite pendingOf_app, Hnone. unfold pendingOf.
      rewrite filter_cons, decide_True by by rewrite Hpay. done.
  - unfold timerTicks. generalize (now :: later). intros times.
    induction times as [ | t times IH ]; [ done | ]. cbn [foldl].
    by rewrite scheduleNextRun_stopped.
Qed.

Lemma timerTicks_unique_type_witness :
  ∃ r,
    timerTicks (taskRegistry true) {| isRunning := true; intervals := [] |}
      {| timerTask := ctor DailyReportTask 1000;
         timerEvery := 24 * 60 * 60 * 1000 |}
      [1000; 86401000; 172801000] emptyStore
    = {| rows := [r]; nextId := 2 |}
    ∧ TaskRow.maturityAt r = 1000.
Proof.
  destruct (proj1 (timerTicks_unique_type (taskRegistry true)
                     {| isRunning := true; intervals := [] |}
                     {| timerTask := ctor DailyReportTask 1000;
                        timerEvery := 24 * 60 * 60 * 1000 |}
                     1000 [86401000; 172801000] emptyStore))
    as (r & Heq & _ & _ & Hmat).
  - reflexivity.
  - by vm_compute.
  - reflexivity.
  - exists r. split; [ exact Heq | exact Hmat ].
Defined.

Lemma timerTicks_all reg sch timer times :
  isRunning sch = true →
  isUnique reg (type (timerTask timer)) = false →
  ∀ st, ∃ added,
    rows (timerTicks reg sch timer times st) = rows st ++ added
    ∧ Forall2 (λ r now, TaskRow.payload r = serialize (timerTask timer)
                        ∧ TaskRow.maturityAt r = now
                        ∧ TaskRow.createdAt r = now) added times.
Proof.
  intros Hrun Huniq. unfold timerTicks.
  induction times as [ | now times IH ]; intros st; cbn [foldl].
  - exists []. rewrite app_nil_r. split; [ done | constructor ].
  - unfold scheduleNextRun at 2. rewrite Hrun.
    destruct (addTask_creates reg now (timerTask timer) 0 st)
      as (r & Hadd & _ & _ & _ & Hpay & Hmat & Hc).
    { intros Hu. congruence. }
    rewrite Hadd. cbn [snd].
    destruct (IH {| rows := rows st ++ [r]; nextId := Pos.succ (nextId st) |})
      as (added & -> & Hall).
    exists (r :: added). simpl. rewrite <- app_assoc. split; [ done | ].
    constructor; [ | done ]. repeat split; try done. lia.
Qed.

(** X17.  The timer of a type that is not unique inserts a row at every
    tick, whether or not earlier ones were claimed.  All these rows carry the
    same payload, the serialization of the one task object the timer holds,
    so the createdAt inside the payload is the time the scheduler built the
    task; the maturityAt and createdAt columns are the time of the tick. *)
Theorem timerTicks_plain_type (reg : TaskRegistry) (sch : TaskScheduler)
    (timer : Timer) (times : list Z) (st : Store) :
  isRunning sch = true →
  isUnique reg (type (timerTask timer)) = false →
  ∃ added,
    rows (timerTicks reg sch timer times st) = rows st ++ added
    ∧ length added = length times
    ∧ Forall2 (λ r now, TaskRow.payload r = serialize (timerTask timer)
                        ∧ p_createdAt (TaskRow.payload r)
                          = Some (createdAt (timerTask timer))
                        ∧ TaskRow.maturityAt r = now
                        ∧ TaskRow.createdAt r = now) added times.
Proof.
  intros Hrun Huniq.
  destruct (timerTicks_all reg sch timer times Hrun Huniq st)
    as (added & Hrows & Hall).
  exists added. split; [ done | ]. split; [ by eapply Forall2_length | ].
  eapply Forall2_impl; [ exact Hall | ].
  intros r now (Hpay & Hmat & Hc). rewrite Hpay. by repeat split.
Qed.

Lemma timerTicks_plain_type_witness :
  ∃ added,
    rows (timerTicks mailRegistry {| isRunning := true; intervals := [] |}
            {| timerTask := ctor SendEmailTask 1000; timerEvery := 5000 |}
            [1000; 6000] emptyStore) = added
    ∧ length added = 2%nat.
Proof.
  destruct (timerTicks_plain_type mailRegistry
              {| isRunning := true; intervals := [] |}
              {| timerTask := ctor SendEmailTask 1000; timerEvery := 5000 |}
              [1000; 6000] emptyStore) as (added & Hrows & Hlen & _).
  - reflexivity.
  - by vm_compute.
  - exists added. split; [ exact Hrows | exact Hlen ].
Defined.




(** ** Inserting, then claiming *)

Lemma claimed_nonempty now n (tbl : list TaskRecord) r :
  NoDup (TaskRow.id <$> tbl) →
  (0 < n)%nat → r ∈ tbl → TaskRow.maturityAt r < now →
  ∃ r0, r0 ∈ filter (λ r, TaskRow.id r ∈ selectIds now n tbl) tbl.
Proof.
  intros Hpk Hn Hr Hm.
  destruct (filter (λ r, TaskRow.id r ∈ selectIds now n tbl) tbl)
    as [ | r0 l ] eqn:Hclaimed; [ | exists r0; left ].
  pose proof (claimed_length now n tbl Hpk) as Hlen.
  rewrite Hclaimed in Hlen. simpl in Hlen.
  assert (Hin : r ∈ filter (λ r, TaskRow.maturityAt r < now) tbl)
    by by apply list_elem_of_filter.
  destruct (filter (λ r, TaskRow.maturityAt r < now) tbl); simpl in Hlen;
    [ by apply elem_of_nil in Hin | lia ].
Qed.

(** X19.  A task inserted with a delay is out of reach of every claim made
    up to the moment it matures, and within reach afterwards: a claim at a
    later time takes it when the batch size covers the table, and also, with
    any batch size of at least one, when its priority is above that of every
    other row. *)
Theorem addTask_then_claimBatch (reg : TaskRegistry) (now delayMs : Z)
    (task : Task) (st st1 : Store) (r : TaskRecord) (claimNow batchSize : Z) :
  primaryKey st →
  addTask reg now task delayMs st = (Some r, st1) →
  0 ≤ batchSize →
  ∃ claimed st2,
    claimBatch claimNow batchSize st1 = Ok (claimed, st2)
    ∧ (claimNow ≤ now + delayMs → (r ∉ claimed) ∧ r ∈ rows st2)
    ∧ (now + delayMs < claimNow →
       (length (rows st1) ≤ Z.to_nat batchSize)%nat
       ∨ (0 < batchSize
          ∧ ∀ r', r' ∈ rows st → TaskRow.priority r' < priority task) →
       r ∈ claimed ∧ (r ∉ rows st2) ∧ TaskRow.payload r = serialize task).
Proof.
  intros Hpk Hadd Hn.
  pose proof (addTask_primaryKey reg now task delayMs st Hpk) as [Hpk1 _].
  destruct (addTask_outcome reg now task delayMs st) as (_ & _ & Hins).
  rewrite Hadd in Hpk1, Hins. simpl in Hpk1, Hins.
  destruct (Hins r eq_refl) as (-> & _ & _ & Hprio & Hpay & Hmat & _).
  simpl in Hpk1.
  eexists _, _. split; [ by apply claimBatch_ok | ]. simpl.
  set (tbl := rows st ++ [r]) in *.
  set (k := Z.to_nat batchSize).
  assert (Hr : r ∈ tbl) by (apply elem_of_app; right; left).
  assert (Hout : r ∈ filter (λ r, TaskRow.id r ∈ selectIds claimNow k tbl) tbl →
                 r ∉ filter (λ r, TaskRow.id r ∉ selectIds claimNow k tbl) tbl).
  { intros Hin Hin'. apply list_elem_of_filter in Hin as [? _].
    by apply list_elem_of_filter in Hin' as [? _]. }
  split.
  - intros Hearly.
    assert (Hnot : r ∉ filter (λ r, TaskRow.id r ∈ selectIds claimNow k tbl) tbl).
    { intros Hin. apply deleted_elem in Hin; [ | done ].
      apply selectRows_elem in Hin as [_ ?]. lia. }
    split; [ done | ]. apply list_elem_of_filter. split; [ | done ].
    intros Hid. apply Hnot. by apply list_elem_of_filter.
  - intros Hlate Hcase.
    assert (Hin : r ∈ filter (λ r, TaskRow.id r ∈ selectIds claimNow k tbl) tbl).
    { destruct Hcase as [Hcover | [Hpos Htop]].
      - apply deleted_elem; [ done | ]. unfold selectRows.
        rewrite take_ge.
        + apply eligibleSorted_elem. split; [ done | lia ].
        + unfold eligibleSorted. rewrite merge_sort_Permutation.
          etransitivity; [ apply length_filter | done ].
      - destruct (decide (TaskRow.id r ∈ selectIds claimNow k tbl))
          as [Hid | Hid]; [ by apply list_elem_of_filter | ].
        assert (Hsel : r ∉ selectRows claimNow k tbl).
        { intros Hsel. apply Hid. by apply list_elem_of_fmap_2. }
        exfalso.
        destruct (claimed_nonempty claimNow k tbl r) as [r0 Hr0];
          [ done | lia | done | lia | ].
        apply deleted_elem in Hr0; [ | done ].
        pose proof (selectRows_first claimNow k tbl r0 r Hr0 Hr
                      ltac:(lia) Hsel) as Horder.
        apply selectRows_elem in Hr0 as Hr0'. destruct Hr0' as [Hr0t _].
        apply elem_of_app in Hr0t as [Hold | Hnew].
        + specialize (Htop r0 Hold). unfold claimOrder in Horder. lia.
        + apply list_elem_of_singleton in Hnew. by subst r0. }
    split; [ done | ]. split; [ by apply Hout | done ].
Qed.

Lemma addTask_then_claimBatch_witness :
  ∃ r claimed st2,
    claimBatch 6000 1 (addTask (taskRegistry true) 5000
                         (ctor (HealthCheckTask true) 5000) 500
                         reportStore).2 = Ok (claimed, st2)
    ∧ r ∈ claimed
    ∧ TaskRow.payload r = serialize (ctor (HealthCheckTask true) 5000).
Proof.
  destruct (addTask_creates (taskRegistry true) 5000
              (ctor (HealthCheckTask true) 5000) 500 reportStore)
    as (r & Hadd & _).
  { intros _. by vm_compute. }
  assert (Hpk : primaryKey reportStore).
  { unfold reportStore. apply addTask_primaryKey, primaryKey_empty. }
  destruct (addTask_then_claimBatch (taskRegistry true) 5000 500
              (ctor (HealthCheckTask true) 5000) reportStore _ r 6000 1
              Hpk Hadd ltac:(lia))
    as (claimed & st2 & Hclaim & _ & Hlate).
  destruct Hlate as (Hin & _ & Hpay).
  - lia.
  - right. split; [ lia | ]. intros r' Hr'.
    apply list_elem_of_singleton in Hr'. subst r'. by vm_compute.
  - exists r, claimed, st2. rewrite Hadd. simpl. by repeat split.
Defined.

(** ** What the table looks like at any time *)

Lemma claimBatch_tableOk reg now batchSize st claimed st' :
  tableOk reg st →
  claimBatch now batchSize st = Ok (claimed, st') →
  tableOk reg st'.
Proof.
  intros (Hpk & Hwf & Huniq) Hclaim. split; [ | split ].
  - by eapply claimBatch_primaryKey.
  - by eapply claimBatch_typedPayloads.
  - unfold getNextBatchToProcess in Hclaim.
    destruct (batchSize <? 0); [ done | ]. injection Hclaim as <- <-.
    eapply uniquePending_sublist; [ apply sublist_filter | done ].
Qed.

Lemma processTask_tableOk reg now taskData st :
  tableOk reg st → tableOk reg (processTask reg now taskData st).2.
Proof.
  intros Hok.
  destruct (processTask_table reg now taskData st) as [-> | (? & ? & ->)];
    [ done | by apply addTask_tableOk ].
Qed.

Lemma runnerTurn_tableOk reg now st :
  tableOk reg st → tableOk reg (runnerTurn reg now st).
Proof.
  intros Hok. unfold runnerTurn.
  destruct (getNextBatchToProcess now 5 st) as [[claimed st'] | ] eqn:Hclaim;
    [ | done ].
  apply (claimBatch_tableOk reg now 5 st claimed st' Hok) in Hclaim.
  unfold processAll. clear Hok. revert st' Hclaim.
  induction claimed as [ | taskData claimed IH ]; intros st' Hok; [ done | ].
  simpl. apply IH. by apply processTask_tableOk.
Qed.

Lemma runOp_tableOk reg op st : tableOk reg st → tableOk reg (runOp reg op st).
Proof.
  intros Hok. destruct op as [now task d | clock tasks sp | now n | now | now task];
    simpl.
  - by apply addTask_tableOk.
  - unfold addBatchTasks.
    by apply (addBatchTasks_from_spec reg clock sp tasks 0 st).
  - destruct (getNextBatchToProcess now n st) as [[claimed st'] | ] eqn:Hclaim;
      [ by eapply claimBatch_tableOk | done ].
  - by apply runnerTurn_tableOk.
  - by apply scheduleNextRun_tableOk.
Qed.

(** X20.  As long as the calls on the table happen one at a time, whatever
    their number and order (single inserts, batch inserts, claims, runner
    turns with their retries, scheduler ticks), a table that was in order
    stays in order after each of them: ids are pairwise different, every
    payload names the type of its row, and no unique type has more than one
    pending row.  The empty table is in order, so this holds of every table
    such calls build up. *)
Theorem sequential_history_keeps_table (reg : TaskRegistry)
    (ops : list QueueOp) :
  (∀ st, tableOk reg st → tableOk reg (runOps reg ops st))
  ∧ tableOk reg (runOps reg ops emptyStore)
  ∧ ∀ ty, isUnique reg ty = true →
      (length (pendingOf ty (rows (runOps reg ops emptyStore))) ≤ 1)%nat.
Proof.
  assert (Hgen : ∀ st, tableOk reg st → tableOk reg (runOps reg ops st)).
  { unfold runOps. induction ops as [ | op ops IH ]; intros st Hst; [ done | ].
    simpl. by apply IH, runOp_tableOk. }
  split; [ done | ].
  pose proof (Hgen emptyStore (tableOk_empty reg)) as Hok.
  split; [ done | ]. by destruct Hok as (_ & _ & Huniq).
Qed.

Lemma sequential_history_keeps_table_witness :
  tableOk (taskRegistry false)
    (runOps (taskRegistry false)
       [ OpSchedulerTick 1000 (ctor (HealthCheckTask false) 1000);
         OpRunnerTurn 2000;
         OpSchedulerTick 6000 (ctor (HealthCheckTask false) 1000);
         OpAddTask 7000 (ctor SendEmailTask 7000) 0 ]
       emptyStore).
Proof.
  apply (proj1 (sequential_history_keeps_table (taskRegistry false) _)).
  apply tableOk_empty.
Defined.

(** ** Concurrent claims, one after the other *)









(** ** Rows a claim passes over *)

Lemma claimed_bound now n (tbl : list TaskRecord) r (ahead : list TaskRecord) :
  NoDup (TaskRow.id <$> tbl) →
  NoDup ahead →
  (n ≤ length ahead)%nat →
  (∀ h, h ∈ ahead →
     h ∈ tbl ∧ TaskRow.maturityAt h < now ∧ ¬ claimOrder r h) →
  r ∉ selectRows now n tbl.
Proof.
  intros Hpk Hnd Hlen Hahead Hr.
  assert (Hsub : (r :: ahead) ⊆+ selectRows now n tbl).
  { apply NoDup_submseteq.
    - apply NoDup_cons. split; [ | done ].
      intros Hin. destruct (Hahead r Hin) as (_ & _ & Hnot).
      apply Hnot. unfold claimOrder. lia.
    - intros h Hh. apply elem_of_cons in Hh as [-> | Hh]; [ done | ].
      destruct (Hahead h Hh) as (Hin & Hm & Hnot).
      destruct (decide (TaskRow.id h ∈ selectIds now n tbl)) as [Hid | Hid].
      + eapply deleted_elem; [ done | ].
        apply list_elem_of_filter. by split.
      + exfalso. apply Hnot.
        apply (selectRows_first now n tbl); [ done | done | done | ].
        intros Hsel. apply Hid. by apply list_elem_of_fmap_2. }
  apply submseteq_length in Hsub. simpl in Hsub.
  unfold selectRows in Hsub. rewrite length_take in Hsub. lia.
Qed.

(** X22.  Priority starves.  The claim has no regard for how long a row has
    waited beyond the tie-break: a matured row is passed over as long as the
    table holds a batch of matured rows that come strictly before it, by a
    higher priority or by the same priority and an earlier createdAt.  With
    [batchSize] such rows pending, a claim of that size does not hand the
    row out and leaves it in the table. *)
Theorem claimBatch_passes_over (now batchSize : Z) (st : Store)
    (r : TaskRecord) (ahead : list TaskRecord) :
  0 ≤ batchSize →
  NoDup (TaskRow.id <$> rows st) →
  r ∈ rows st →
  NoDup ahead →
  batchSize ≤ Z.of_nat (length ahead) →
  (∀ h, h ∈ ahead →
     h ∈ rows st ∧ TaskRow.maturityAt h < now
     ∧ (TaskRow.priority r < TaskRow.priority h
        ∨ (TaskRow.priority h = TaskRow.priority r
           ∧ TaskRow.createdAt h < TaskRow.createdAt r))) →
  ∃ claimed st',
    claimBatch now batchSize st = Ok (claimed, st')
    ∧ (r ∉ claimed)
    ∧ r ∈ rows st'.
Proof.
  intros Hn Hpk Hr Hnd Hlen Hahead. rewrite claimBatch_ok by done.
  eexists _, _. split; [ done | ]. simpl.
  assert (Hnot : r ∉ selectRows now (Z.to_nat batchSize) (rows st)).
  { apply (claimed_bound now _ (rows st) r ahead); [ done | done | lia | ].
    intros h Hh. destruct (Hahead h Hh) as (Hin & Hm & Hbefore).
    split; [ done | ]. split; [ done | ]. unfold claimOrder. lia. }
  assert (Hid : TaskRow.id r ∉ selectIds now (Z.to_nat batchSize) (rows st)).
  { intros Hid. apply Hnot. eapply deleted_elem; [ done | ].
    apply list_elem_of_filter. by split. }
  split.
  - intros Hin. apply list_elem_of_filter in Hin as [Hin _]. by apply Hid.
  - apply list_elem_of_filter. by split.
Qed.

Lemma claimBatch_passes_over_witness :
  ∃ claimed st',
    claimBatch 5000 2 priorityStore = Ok (claimed, st')
    ∧ (exampleRow 1 "SendEmail" 10 1000 1000 ∉ claimed)
    ∧ exampleRow 1 "SendEmail" 10 1000 1000 ∈ rows st'.
Proof.
  apply (claimBatch_passes_over 5000 2 priorityStore
           (exampleRow 1 "SendEmail" 10 1000 1000)
           [ urgentRow; exampleRow 3 "ProcessData" 50 2000 2000 ]).
  - lia.
  - apply (bool_decide_unpack _). vm_compute. exact I.
  - simpl. unfold priorityRows. apply list_elem_of_here.
  - apply (NoDup_fmap_1 TaskRow.id). apply (bool_decide_unpack _).
    vm_compute. exact I.
  - simpl. lia.
  - intros h Hh. simpl. unfold priorityRows.
    apply elem_of_cons in Hh as [-> | Hh].
    { split; [ do 3 apply list_elem_of_further; apply list_elem_of_here | ].
      simpl. lia. }
    apply elem_of_cons in Hh as [-> | Hh]; [ | by apply elem_of_nil in Hh ].
    split; [ do 2 apply list_elem_of_further; apply list_elem_of_here | ].
    simpl. lia.
Defined.
